(** * PersonalizedExam_app: a shallow embedding of [app.py]

    The program is one Streamlit script.  Every user interaction re-runs it
    from the first line: it reloads the two CSV tables, checks the login,
    renders the selected page and, on the exam page, may append the
    submitted answers to the attempt log.

    Conventions of the embedding.
    - A pandas [DataFrame] is the list of its rows; the index label of a
      row is its position (the frame comes from [read_csv], and
      [concat(..., ignore_index=True)] renumbers it the same way).  A
      filtered frame keeps the original labels, so it is a list of
      (label, row) pairs.
    - Python strings are [string]s of 8-bit characters.
    - A Python exception is a value of [exn]; a computation returns a
      [result].
    - Random draws ([DataFrame.sample], [random.randint]) read a list of
      naturals, the entropy of the run, held in the world state.
    - The CSV file is the table it stores: [to_csv] followed by
      [read_csv] gives back the rows written.
    - Percentages and means are exact rationals; the rounding of binary
      floating point is not modelled. *)

From stdpp Require Import gmap strings list sorting.
From Stdlib Require Import ZArith QArith Qcanon Ascii.

Local Open Scope string_scope.
Local Open Scope Z_scope.
Local Open Scope list_scope.
Set Warnings "-clear-no-such-hyp".

(** ** Exceptions and results *)

Inductive exn :=
  | ValueError          (* sample larger than population; truth value of an array *)
  | ReError             (* re.error: the pattern does not compile *)
  | KeyError            (* answers[idx] without an entry for idx *)
  | AttributeError      (* st.session_state.answers before it is created *)
  | ZeroDivisionError.

(** [Beyond] marks a run that leaves the modelled fragment of Python's
    regular-expression syntax; nothing is claimed about such a run. *)
Inductive result (A : Type) :=
  | Ok (a : A)
  | Raise (e : exn)
  | Beyond.
Arguments Ok {A} a.
Arguments Raise {A} e.
Arguments Beyond {A}.

Definition rbind {A B} (r : result A) (k : A → result B) : result B :=
  match r with
  | Ok a => k a
  | Raise e => Raise e
  | Beyond => Beyond
  end.

Definition rmap {A B} (f : A → B) (r : result A) : result B :=
  rbind r (λ a, Ok (f a)).

(** ** The data model (columns of the two CSV files) *)

Record Attempt := {
  student_id : string;
  question_id : string;
  topic : string;
  difficulty : string;
  question_type : string;
  student_answer : string;
  correct_answer : string;
  is_correct : Z;
  score : Z;
  time_spent : Z
}.

(** Only the [antecedents] column of [fp_growth_rules.csv] is read. *)
Record Rule := { antecedents : string }.

Abbreviation DataFrame := (list Attempt).

(** [df.iterrows()] on an unfiltered frame: rows with their labels. *)
Definition iterrows (df : DataFrame) : list (nat * Attempt) :=
  imap (λ i r, (i, r)) df.

(** ** Regular expressions: the fragment of Python's [re] that is modelled

    [Series.str.contains(pat)] is called with its default [regex=True]:
    pandas compiles [pat] with [re.compile] and keeps the entries on
    which [re.search] finds a match. *)

Module Re.

Inductive regex :=
  | Void
  | Eps
  | Chr (c : ascii)
  | Dot
  | Cat (r s : regex)
  | Alt (r s : regex)
  | Star (r : regex).

(** ['.'] matches every character but the newline. *)
Definition newline : ascii := "010"%char.
Definition dot_ok (c : ascii) : bool := negb (Ascii.eqb c newline).

Fixpoint nullable (r : regex) : bool :=
  match r with
  | Void | Chr _ | Dot => false
  | Eps | Star _ => true
  | Cat r s => nullable r && nullable s
  | Alt r s => nullable r || nullable s
  end.

Fixpoint deriv (c : ascii) (r : regex) : regex :=
  match r with
  | Void | Eps => Void
  | Chr d => if Ascii.eqb c d then Eps else Void
  | Dot => if dot_ok c then Eps else Void
  | Cat r s =>
      if nullable r then Alt (Cat (deriv c r) s) (deriv c s)
      else Cat (deriv c r) s
  | Alt r s => Alt (deriv c r) (deriv c s)
  | Star r => Cat (deriv c r) (Star r)
  end.

(** Some prefix of [s] is matched by [r] ([re.match]). *)
Fixpoint match_prefix (r : regex) (s : list ascii) : bool :=
  nullable r ||
  match s with
  | [] => false
  | c :: s' => match_prefix (deriv c r) s'
  end.

(** Some substring of [s] is matched by [r] ([re.search] is not None). *)
Fixpoint search (r : regex) (s : list ascii) : bool :=
  match_prefix r s ||
  match s with
  | [] => false
  | _ :: s' => search r s'
  end.

(** *** Compiling a pattern

    The pattern is read left to right with a stack of open groups.  A
    frame holds the alternatives already closed by ['|'] and the atoms
    of the current alternative, last atom first; an atom remembers
    whether a quantifier was applied to it. *)

Record frame := {
  alts : list regex;
  atoms : list (regex * bool)
}.

Definition empty_frame : frame := {| alts := []; atoms := [] |}.

Definition cat_atoms (rev_atoms : list (regex * bool)) : regex :=
  foldl (λ acc a, Cat a.1 acc) Eps rev_atoms.

Definition close (f : frame) : regex :=
  foldr Alt (cat_atoms (atoms f)) (alts f).

Definition push (a : regex) (f : frame) : frame :=
  {| alts := alts f; atoms := (a, false) :: atoms f |}.

Definition quantify (q : ascii) (r : regex) : regex :=
  if Ascii.eqb q "*" then Star r
  else if Ascii.eqb q "+" then Cat r (Star r)
  else Alt Eps r.

Definition is_quantifier (c : ascii) : bool :=
  Ascii.eqb c "*" || Ascii.eqb c "+" || Ascii.eqb c "?".

(** Special characters outside the modelled fragment: classes, counted
    repeats, escapes and anchors. *)
Definition is_unmodelled (c : ascii) : bool :=
  Ascii.eqb c "[" || Ascii.eqb c "]" || Ascii.eqb c "{" || Ascii.eqb c "}"
  || Ascii.eqb c "\" || Ascii.eqb c "^" || Ascii.eqb c "$".

Fixpoint parse (p : list ascii) (cur : frame) (stack : list frame)
  : result regex :=
  match p with
  | [] =>
      match stack with
      | [] => Ok (close cur)
      | _ :: _ => Raise ReError          (* missing ")" *)
      end
  | c :: p' =>
      if Ascii.eqb c "(" then
        match p' with
        | "?"%char :: _ => Beyond          (* "(?...)" extension syntax *)
        | _ => parse p' empty_frame (cur :: stack)
        end
      else if Ascii.eqb c ")" then
        match stack with
        | [] => Raise ReError            (* unbalanced parenthesis *)
        | f :: stack' => parse p' (push (close cur) f) stack'
        end
      else if Ascii.eqb c "|" then
        parse p' {| alts := alts cur ++ [cat_atoms (atoms cur)];
                    atoms := [] |} stack
      else if is_quantifier c then
        match atoms cur with
        | [] => Raise ReError            (* nothing to repeat *)
        | (_, true) :: _ => Beyond       (* lazy, possessive or multiple repeat *)
        | (r, false) :: rest =>
            parse p' {| alts := alts cur;
                        atoms := (quantify c r, true) :: rest |} stack
        end
      else if Ascii.eqb c "." then parse p' (push Dot cur) stack
      else if is_unmodelled c then Beyond
      else parse p' (push (Chr c) cur) stack
  end.

Definition compile (pat : string) : result regex :=
  parse (String.list_ascii_of_string pat) empty_frame [].

(** *** The language of a regular expression

    [matches r w]: the word [w] belongs to the language of [r].  It is
    the yardstick for [nullable], [deriv] and the two searches. *)
Inductive matches : regex → list ascii → Prop :=
  | m_eps : matches Eps []
  | m_chr c : matches (Chr c) [c]
  | m_dot c : dot_ok c = true → matches Dot [c]
  | m_cat r s u v : matches r u → matches s v → matches (Cat r s) (u ++ v)
  | m_alt_l r s u : matches r u → matches (Alt r s) u
  | m_alt_r r s u : matches s u → matches (Alt r s) u
  | m_star_nil r : matches (Star r) []
  | m_star_app r u v :
      matches r u → matches (Star r) v → matches (Star r) (u ++ v).

(** What a pattern of ordinary characters compiles to. *)
Definition lit (c : ascii) : regex * bool := (Chr c, false).

Definition lits (p : list ascii) : regex := cat_atoms (rev (map lit p)).

End Re.

(** [col.str.contains(pat)]: the pattern is compiled once, then searched
    in every entry of the column. *)
Definition str_contains (col : list string) (pat : string)
  : result (list bool) :=
  rbind (Re.compile pat)
        (λ r, Ok (map (λ s, Re.search r (String.list_ascii_of_string s)) col)).

(** [frame[mask]]: the rows whose mask entry is [True]. *)
Definition select {A} (l : list A) (mask : list bool) : list A :=
  map fst (filter (λ p, p.2 = true) (zip l mask)).

(** ** The recommendation resolver, [get_recommendations] *)

(** [Series.unique()]: the distinct values in order of first appearance. *)
Fixpoint unique_from (seen : list string) (l : list string) : list string :=
  match l with
  | [] => []
  | x :: l' =>
      if decide (x ∈ seen) then unique_from seen l'
      else x :: unique_from (x :: seen) l'
  end.

Definition unique (l : list string) : list string := unique_from [] l.

Definition weak_topics (sid : string) (df : DataFrame) : list string :=
  unique (map topic
    (filter (λ r, student_id r = sid ∧ is_correct r = 0) df)).

(** The inner loop: one [recommendations.add(topic)] per matched rule. *)
Definition add_per_rule (t : string) (matched_rules : list Rule)
    (recommendations : gset string) : gset string :=
  foldl (λ acc _, {[t]} ∪ acc) recommendations matched_rules.

Fixpoint recommend_loop (topics : list string) (rules : list Rule)
    (recommendations : gset string) : result (gset string) :=
  match topics with
  | [] => Ok recommendations
  | t :: topics' =>
      rbind (str_contains (map antecedents rules) ("Topic_" +:+ t))
        (λ mask,
           recommend_loop topics' rules
             (add_per_rule t (select rules mask) recommendations))
  end.

Definition get_recommendations (sid : string) (df : DataFrame)
    (rules : list Rule) : result (list string) :=
  rmap elements (recommend_loop (weak_topics sid df) rules ∅).

(** ** The world of a run and the script monad

    [processed_data] and [fp_growth_rules] are the two CSV files,
    [session_answers] is [st.session_state.answers] (absent until the
    exam page creates it) and [entropy] feeds the random draws. *)

Record World := {
  processed_data : DataFrame;
  fp_growth_rules : list Rule;
  session_answers : option (gmap nat string);
  entropy : list nat
}.

(** A failing computation keeps the state it reached: nothing is rolled
    back when an exception ends the run. *)
Definition M (A : Type) : Type := World → result A * World.

Definition ret {A} (a : A) : M A := λ w, (Ok a, w).
Definition raise {A} (e : exn) : M A := λ w, (Raise e, w).
Definition lift {A} (r : result A) : M A := λ w, (r, w).
Definition bind {A B} (m : M A) (k : A → M B) : M B :=
  λ w, match m w with
       | (Ok a, w') => k a w'
       | (Raise e, w') => (Raise e, w')
       | (Beyond, w') => (Beyond, w')
       end.

Declare Scope script_scope.
Delimit Scope script_scope with script.
Notation "x <- m ;; k" := (bind m (λ x, k))
  (at level 100, m at next level, right associativity) : script_scope.
Notation "m ;; k" := (bind m (λ _, k))
  (at level 100, right associativity) : script_scope.
Local Open Scope script_scope.

Definition get_world : M World := λ w, (Ok w, w).

(** [pd.read_csv] of the two files. *)
Definition read_processed_data : M DataFrame :=
  λ w, (Ok (processed_data w), w).

Definition read_fp_growth_rules : M (list Rule) :=
  λ w, (Ok (fp_growth_rules w), w).

(** [df.to_csv("processed_data.csv", index=False)]: the file is
    overwritten with the whole table. *)
Definition to_csv (df : DataFrame) : M unit :=
  λ w, (Ok (), {| processed_data := df;
                  fp_growth_rules := fp_growth_rules w;
                  session_answers := session_answers w;
                  entropy := entropy w |}).

Definition set_answers (a : gmap nat string) : M unit :=
  λ w, (Ok (), {| processed_data := processed_data w;
                  fp_growth_rules := fp_growth_rules w;
                  session_answers := Some a;
                  entropy := entropy w |}).

(** One random natural; an exhausted supply keeps answering 0. *)
Definition draw : M nat :=
  λ w, match entropy w with
       | [] => (Ok 0%nat, w)
       | r :: e => (Ok r, {| processed_data := processed_data w;
                             fp_growth_rules := fp_growth_rules w;
                             session_answers := session_answers w;
                             entropy := e |})
       end.

(** [random.randint(lo, hi)]: both ends included. *)
Definition randint (lo hi : Z) : M Z :=
  r <- draw ;; ret (lo + Z.of_nat r mod (hi - lo + 1)).

(** [frame.sample(n)], without replacement: [n] times, one of the rows
    still in the population is taken out of it.  Asking for more rows
    than the frame has raises [ValueError]. *)
Fixpoint sample_loop {A} (n : nat) (population : list A) : M (list A) :=
  match n with
  | O => ret []
  | S n' =>
      r <- draw ;;
      let i := (r mod length population)%nat in
      match population !! i with
      | None => ret []
      | Some x =>
          rest <- sample_loop n' (delete i population) ;;
          ret (x :: rest)
      end
  end.

Definition sample {A} (n : nat) (frame : list A) : M (list A) :=
  if decide (length frame < n)%nat then raise ValueError
  else sample_loop n frame.

(** ** Requests and what a run renders *)

Inductive Page := Dashboard | Analytics | TakeExam | Recommendations.

(** The four options of a question's radio button; the last one is the
    row's own [correct_answer]. *)
Inductive Choice := OptionA | OptionB | OptionC | OptionCorrect.

Definition option_text (c : Choice) (row : Attempt) : string :=
  match c with
  | OptionA => "Option A"
  | OptionB => "Option B"
  | OptionC => "Option C"
  | OptionCorrect => correct_answer row
  end.

(** The widgets' values during one run: the sidebar text input, the
    navigation radio, the radio button with key [Q_idx] of every
    question, and whether the submit button was pressed. *)
Record Request := {
  text_input : string;
  page : Page;
  radio : nat → Choice;
  submit_clicked : bool
}.

Record Submission := {
  correct_count : Z;
  session_size : nat;
  exam_score : Qc
}.

Inductive Rendered :=
  | Welcome                                  (* no identifier yet; st.stop() *)
  | InvalidStudent                           (* st.error(...); st.stop() *)
  | DashboardPage (total_score : Z) (accuracy : option Qc)
                  (total_attempts : nat) (avg_time : option Qc)
  | AnalyticsPage (avg_accuracy : option Qc)
  | ExamPage (exam_type : string) (exam_questions : list (nat * Attempt))
             (submitted : option Submission)
  | RecommendationsPage (recs : list string).

(** ** The exam page *)

(** After the fallback, [recs] is either the Python list returned by the
    resolver or the NumPy array returned by [unique()]. *)
Inductive Topics :=
  | PyList (l : list string)
  | NdArray (l : list string).

Definition topics_of (t : Topics) : list string :=
  match t with PyList l | NdArray l => l end.

(** Truth value, as [if recs] takes it: a list is true when it is not
    empty; an array of one element has the truth value of that element,
    and an array of several elements has none ([ValueError]). *)
Definition truth (t : Topics) : result bool :=
  match t with
  | PyList l => Ok (bool_decide (l ≠ []))
  | NdArray [] => Ok false
  | NdArray [x] => Ok (bool_decide (x ≠ ""))
  | NdArray (_ :: _ :: _) => Raise ValueError
  end.

(** Lines 275-276: an empty recommendation falls back to every topic. *)
Definition fallback (recs : list string) (df : DataFrame) : Topics :=
  if bool_decide (recs = []) then NdArray (unique (map topic df))
  else PyList recs.

(** [df[df["topic"].isin(recs)]] *)
Definition candidates (recs : Topics) (df : DataFrame)
  : list (nat * Attempt) :=
  filter (λ p, topic p.2 ∈ topics_of recs) (iterrows df).

(** The rendering loop stores the selected option of every question. *)
Definition record_answers (req : Request)
    (exam_questions : list (nat * Attempt)) (answers : gmap nat string)
  : gmap nat string :=
  foldl (λ acc p, <[p.1 := option_text (radio req p.1) p.2]> acc)
        answers exam_questions.

(** The scoring loop of the submit handler. *)
Fixpoint score_loop (current_student : string) (answers : gmap nat string)
    (exam_questions : list (nat * Attempt))
    (new_rows : list Attempt) (count : Z) : M (list Attempt * Z) :=
  match exam_questions with
  | [] => ret (new_rows, count)
  | (idx, row) :: rest =>
      match answers !! idx with
      | None => raise KeyError
      | Some user_answer =>
          let correct := bool_decide (user_answer = correct_answer row) in
          let count' := if correct then count + 1 else count in
          t <- randint 15 60 ;;
          score_loop current_student answers rest
            (new_rows ++
             [{| student_id := current_student;
                 question_id := question_id row;
                 topic := topic row;
                 difficulty := difficulty row;
                 question_type := question_type row;
                 student_answer := user_answer;
                 correct_answer := correct_answer row;
                 is_correct := Z.b2z correct;
                 score := Z.b2z correct;
                 time_spent := t |}])
            count'
      end
  end.

(** [(correct_count / len(exam_questions)) * 100], in exact arithmetic. *)
Definition percentage (count : Z) (n : nat) : result Qc :=
  if decide (n = 0%nat) then Raise ZeroDivisionError
  else Ok (Qc_of_Z count / Qc_of_Z (Z.of_nat n) * Qc_of_Z 100)%Qc.

(** The submit handler: score, append, persist, then report. *)
Definition submit_exam (current_student : string) (df : DataFrame)
    (exam_questions : list (nat * Attempt)) : M Submission :=
  w <- get_world ;;
  match session_answers w with
  | None => raise AttributeError
  | Some answers =>
      scored <- score_loop current_student answers exam_questions [] 0 ;;
      to_csv (df ++ scored.1)%list ;;
      pct <- lift (percentage scored.2 (length exam_questions)) ;;
      ret {| correct_count := scored.2;
             session_size := length exam_questions;
             exam_score := pct |}
  end.

Definition take_exam (req : Request) (current_student : string)
    (df : DataFrame) (rules : list Rule) : M Rendered :=
  recs0 <- lift (get_recommendations current_student df rules) ;;
  let recs := fallback recs0 df in
  focused <- lift (truth recs) ;;
  let exam_type :=
    if focused : bool then "Focused on weak areas" else "General assessment" in
  exam_questions <- sample (min 5 (length df)) (candidates recs df) ;;
  w <- get_world ;;
  set_answers (record_answers req exam_questions
                 (default ∅ (session_answers w))) ;;
  if submit_clicked req then
    s <- submit_exam current_student df exam_questions ;;
    ret (ExamPage exam_type exam_questions (Some s))
  else ret (ExamPage exam_type exam_questions None).

(** ** The other pages *)

Definition sum_Z (l : list Z) : Z := foldr Z.add 0 l.

(** [Series.mean()]; [None] stands for the NaN of an empty series. *)
Definition mean (l : list Z) : option Qc :=
  if decide (l = []) then None
  else Some (Qc_of_Z (sum_Z l) / Qc_of_Z (Z.of_nat (length l)))%Qc.

Definition times100 (m : option Qc) : option Qc :=
  (λ q, q * Qc_of_Z 100)%Qc <$> m.

(** The four metric cards.  The per-topic table and the list of recent
    attempts are views of [student_df] and are left out. *)
Definition dashboard (current_student : string) (df : DataFrame) : Rendered :=
  let student_df := filter (λ r, student_id r = current_student) df in
  DashboardPage (sum_Z (map score student_df))
                (times100 (mean (map is_correct student_df)))
                (length student_df)
                (mean (map time_spent student_df)).

(** The charts are drawn by the plotting library; of the quick insights
    the overall accuracy is kept. *)
Definition analytics (df : DataFrame) : Rendered :=
  AnalyticsPage (times100 (mean (map is_correct df))).

Definition recommendations_page (current_student : string) (df : DataFrame)
    (rules : list Rule) : M Rendered :=
  recs <- lift (get_recommendations current_student df rules) ;;
  ret (RecommendationsPage recs).

(** ** The script *)

Definition render_page (req : Request) (current_student : string)
    (df : DataFrame) (rules : list Rule) : M Rendered :=
  match page req with
  | Dashboard => ret (dashboard current_student df)
  | Analytics => ret (analytics df)
  | TakeExam => take_exam req current_student df rules
  | Recommendations => recommendations_page current_student df rules
  end.

(** One run of [app.py]: load both tables, pass the two login guards
    (each ends the run with [st.stop()]), render the selected page. *)
Definition app (req : Request) : M Rendered :=
  df <- read_processed_data ;;
  rules <- read_fp_growth_rules ;;
  let sid := text_input req in
  if bool_decide (sid = "") then ret Welcome
  else if bool_decide (sid ∉ map student_id df) then ret InvalidStudent
  else render_page req sid df rules.

(** ** The specification's reading of the rule test

    The specification words the test of a rule as plain containment of
    the characters of ["Topic_" + t]; [literal_substring] is that
    reading, to be compared with [str_contains]. *)

Fixpoint is_prefix (p s : list ascii) : bool :=
  match p, s with
  | [], _ => true
  | _ :: _, [] => false
  | a :: p', b :: s' => Ascii.eqb a b && is_prefix p' s'
  end.

Fixpoint occurs_in (p s : list ascii) : bool :=
  is_prefix p s ||
  match s with
  | [] => false
  | _ :: s' => occurs_in p s'
  end.

Definition literal_substring (pat s : string) : bool :=
  occurs_in (String.list_ascii_of_string pat) (String.list_ascii_of_string s).

(** A character that [re] reads as itself. *)
Definition plain_char (c : ascii) : bool :=
  negb (Ascii.eqb c "(" || Ascii.eqb c ")" || Ascii.eqb c "|"
        || Re.is_quantifier c || Ascii.eqb c "." || Re.is_unmodelled c).

Definition plain (s : string) : bool :=
  forallb plain_char (String.list_ascii_of_string s).

(** ** Vocabulary of the statements *)

(** [sid] answered a question of topic [t] wrongly at least once. *)
Definition has_incorrect_attempt (sid t : string) (df : DataFrame) : Prop :=
  ∃ r, r ∈ df ∧ student_id r = sid ∧ topic r = t ∧ is_correct r = 0.

(** Some rule names the topic literally, as the specification reads the
    rule test. *)
Definition mentioned (rules : list Rule) (t : string) : Prop :=
  ∃ rule, rule ∈ rules ∧
          literal_substring ("Topic_" +:+ t) (antecedents rule) = true.

(** Two worlds that differ at most in the entropy left. *)
Definition only_entropy (w w' : World) : Prop :=
  processed_data w' = processed_data w ∧
  fp_growth_rules w' = fp_growth_rules w ∧
  session_answers w' = session_answers w.

(** The row the submit handler builds for question [p] of the session. *)
Definition synthesized (sid : string) (answers : gmap nat string)
    (p : nat * Attempt) (nr : Attempt) : Prop :=
  ∃ a, answers !! p.1 = Some a ∧
       student_id nr = sid ∧
       question_id nr = question_id p.2 ∧
       topic nr = topic p.2 ∧
       difficulty nr = difficulty p.2 ∧
       question_type nr = question_type p.2 ∧
       student_answer nr = a ∧
       correct_answer nr = correct_answer p.2 ∧
       is_correct nr = (if decide (a = correct_answer p.2) then 1 else 0) ∧
       score nr = is_correct nr ∧
       15 ≤ time_spent nr ≤ 60.

(** A computation keeps a property of the attempt log. *)
Definition keeps {A} (Q : DataFrame → Prop) (m : M A) : Prop :=
  ∀ w, Q (processed_data w) → Q (processed_data (m w).2).

(** ** Sample tables *)

Definition attempt (sid qid top answer : string) (ok : Z) : Attempt :=
  {| student_id := sid; question_id := qid; topic := top;
     difficulty := "Easy"; question_type := "MCQ";
     student_answer := if bool_decide (ok = 1) then answer else "Option A";
     correct_answer := answer; is_correct := ok; score := ok;
     time_spent := 30 |}.

Definition rule (a : string) : Rule := {| antecedents := a |}.

Definition world (df : DataFrame) (rules : list Rule) (e : list nat) : World :=
  {| processed_data := df; fp_growth_rules := rules;
     session_answers := None; entropy := e |}.

Definition request (sid : string) (p : Page) (c : Choice) (submit : bool)
  : Request :=
  {| text_input := sid; page := p; radio := λ _, c; submit_clicked := submit |}.

(** The specification's example: S12 is wrong twice on Algebra and right
    twice on Geometry, and one rule names Algebra. *)
Definition df_spec_example : DataFrame :=
  [ attempt "S12" "Q1" "Algebra" "4" 0;
    attempt "S12" "Q2" "Algebra" "9" 0;
    attempt "S12" "Q3" "Geometry" "pi" 1;
    attempt "S12" "Q4" "Geometry" "90" 1 ].

Definition rules_algebra : list Rule :=
  [ rule "frozenset({'Topic_Algebra'})" ].

(** Six attempts, only one of them on the topic recommended to S12. *)
Definition df_one_candidate : DataFrame :=
  [ attempt "S12" "Q1" "Algebra" "4" 0;
    attempt "S12" "Q2" "Geometry" "pi" 1;
    attempt "S13" "Q3" "Geometry" "90" 1;
    attempt "S13" "Q4" "Geometry" "180" 1;
    attempt "S13" "Q5" "Geometry" "360" 1;
    attempt "S13" "Q6" "Geometry" "45" 1 ].

(** S13 has no wrong answer; the log has two topics. *)
Definition df_two_topics : DataFrame :=
  [ attempt "S13" "Q1" "Algebra" "4" 1;
    attempt "S13" "Q2" "Geometry" "pi" 1 ].

(** Two students attempted the same question. *)
Definition df_same_question : DataFrame :=
  [ attempt "S12" "Q1" "Algebra" "4" 0;
    attempt "S13" "Q1" "Algebra" "4" 1 ].

(** Topic names with characters that [re] reads as operators. *)
Definition df_dot : DataFrame := [ attempt "S1" "Q1" "A.B" "4" 0 ].
Definition df_paren : DataFrame := [ attempt "S1" "Q1" "f(x)" "4" 0 ].
Definition df_plus : DataFrame := [ attempt "S1" "Q1" "a+b" "4" 0 ].
Definition df_open : DataFrame := [ attempt "S1" "Q1" "f(x" "4" 0 ].

(** One question on screen, answered with the row's own answer. *)
Definition one_question : list (nat * Attempt) :=
  [ (0%nat, attempt "S12" "Q1" "Algebra" "4" 0) ].

Definition world_answered : World :=
  {| processed_data := df_spec_example; fp_growth_rules := rules_algebra;
     session_answers := Some {[ 0%nat := "4" ]}; entropy := [7%nat] |}.

(** The pattern built for topic [t] compiles. *)
Definition compiles (t : string) : Prop :=
  ∃ r, Re.compile ("Topic_" +:+ t) = Ok r.

(** Some rule is kept by the rule test of topic [t], as the code runs
    it: the compiled pattern is found in the rule's antecedents. *)
Definition rule_matches (rules : list Rule) (t : string) : Prop :=
  ∃ r rule, Re.compile ("Topic_" +:+ t) = Ok r ∧ rule ∈ rules ∧
            Re.search r (String.list_ascii_of_string (antecedents rule)) = true.

(** The text shown as exam type. *)
Definition exam_type_text (focused : bool) : string :=
  if focused then "Focused on weak areas" else "General assessment".

(** ** More of the pages: recommendation cards, recent attempts, insights *)

(** Lines 367-368: the accuracy printed on the card of a recommended
    topic; [0] when the student has no attempt on it. *)
Definition topic_accuracy (current_student t : string) (df : DataFrame) : Qc :=
  let student_topic_df :=
    filter (λ r, student_id r = current_student ∧ topic r = t) df in
  if decide (0 < length student_topic_df)%nat
  then default 0%Qc (times100 (mean (map is_correct student_topic_df)))
  else 0%Qc.

(** The cards of the recommendations page, numbered from 1. *)
Definition recommendation_cards (current_student : string) (df : DataFrame)
    (rules : list Rule) : result (list (nat * string * Qc)) :=
  rmap (imap (λ i t, (S i, t, topic_accuracy current_student t df)))
       (get_recommendations current_student df rules).

(** The six columns of the table of recent attempts. *)
Record AttemptView := {
  v_question_id : string;
  v_topic : string;
  v_difficulty : string;
  v_is_correct : Z;
  v_score : Z;
  v_time_spent : Z
}.

Definition view (r : Attempt) : AttemptView :=
  {| v_question_id := question_id r; v_topic := topic r;
     v_difficulty := difficulty r; v_is_correct := is_correct r;
     v_score := score r; v_time_spent := time_spent r |}.

(** [frame.tail(n)]: the last [n] rows. *)
Definition tail_rows {A} (n : nat) (frame : list A) : list A :=
  drop (length frame - n) frame.

(** [frame.sort_index(ascending=False)]: by decreasing label. *)
Fixpoint insert_desc {A} (p : nat * A) (sorted : list (nat * A))
  : list (nat * A) :=
  match sorted with
  | [] => [p]
  | q :: rest =>
      if decide (q.1 ≤ p.1)%nat then p :: q :: rest
      else q :: insert_desc p rest
  end.

Definition sort_index_desc {A} (frame : list (nat * A)) : list (nat * A) :=
  foldr insert_desc [] frame.

(** Lines 203-206: the last ten attempts of the student, newest first. *)
Definition recent_attempts (current_student : string) (df : DataFrame)
  : list (nat * AttemptView) :=
  let student_df :=
    filter (λ p, student_id p.2 = current_student) (iterrows df) in
  sort_index_desc (tail_rows 10 (prod_map id view <$> student_df)).

(** The order of Python strings of 8-bit characters: lexicographic, by
    character code. *)
Definition str_le (a b : string) : Prop := String.leb a b = true.

#[global] Instance str_le_dec : RelDecision str_le :=
  λ a b, decide (String.leb a b = true).

(** The mean of [is_correct] over the attempts on one topic, as an exact
    rational (a group of the series is never empty). *)
Definition topic_mean (df : DataFrame) (t : string) : Qc :=
  default 0%Qc (mean (map is_correct (filter (λ r, topic r = t) df))).

(** [df.groupby("topic")["is_correct"].mean()]: one entry per topic,
    the topics in increasing order. *)
Definition groupby_topic_mean (df : DataFrame) : list (string * Qc) :=
  (λ t, (t, topic_mean df t)) <$> merge_sort str_le (unique (map topic df)).

(** [Series.idxmin()] and [Series.idxmax()]: the key of the first
    smallest (largest) value; an empty series raises [ValueError]. *)
Fixpoint argmin (best : string * Qc) (s : list (string * Qc)) : string :=
  match s with
  | [] => best.1
  | p :: s' => if decide (p.2 < best.2)%Qc then argmin p s' else argmin best s'
  end.

Fixpoint argmax (best : string * Qc) (s : list (string * Qc)) : string :=
  match s with
  | [] => best.1
  | p :: s' => if decide (best.2 < p.2)%Qc then argmax p s' else argmax best s'
  end.

Definition idxmin (s : list (string * Qc)) : result string :=
  match s with
  | [] => Raise ValueError
  | p :: s' => Ok (argmin p s')
  end.

Definition idxmax (s : list (string * Qc)) : result string :=
  match s with
  | [] => Raise ValueError
  | p :: s' => Ok (argmax p s')
  end.

(** Lines 256 and 260: the two topics named in the quick insights. *)
Definition most_difficult (df : DataFrame) : result string :=
  idxmin (groupby_topic_mean df).

Definition best_topic (df : DataFrame) : result string :=
  idxmax (groupby_topic_mean df).

(** A run of the exam page by S12, every radio button on its first
    option, the submit button pressed. *)
Definition exam_request : Request := request "S12" TakeExam OptionA true.

Definition exam_world : World :=
  world df_same_question rules_algebra [3%nat; 1%nat; 4%nat; 1%nat].

(** * Theorems *)

(** ** Facts about the regular-expression model *)

Module ReFacts.
Import Re.

Create HintDb re.
#[local] Hint Constructors matches : re.

Ltac invert H := inversion H; subst; clear H.

Lemma matches_void_inv w : ¬ matches Void w.
Proof. intros H. invert H. Qed.

Lemma matches_eps_inv w : matches Eps w → w = [].
Proof. intros H. by invert H. Qed.

Lemma matches_chr_inv c w : matches (Chr c) w → w = [c].
Proof. intros H. by invert H. Qed.

Lemma matches_dot_inv w : matches Dot w → ∃ c, w = [c] ∧ dot_ok c = true.
Proof. intros H. invert H. eauto. Qed.

Lemma matches_cat_inv r s w :
  matches (Cat r s) w → ∃ u v, w = u ++ v ∧ matches r u ∧ matches s v.
Proof. intros H. invert H. eauto. Qed.

Lemma matches_alt_inv r s w : matches (Alt r s) w → matches r w ∨ matches s w.
Proof. intros H. invert H; auto. Qed.

Lemma matches_cat_cons r s c u v :
  matches r (c :: u) → matches s v → matches (Cat r s) (c :: u ++ v).
Proof. intros. change (c :: u ++ v) with ((c :: u) ++ v). by constructor. Qed.

Lemma nullable_spec r : nullable r = true ↔ matches r [].
Proof.
  induction r; simpl; split; intros H; try discriminate; eauto with re.
  - by apply matches_void_inv in H.
  - by apply matches_chr_inv in H.
  - by apply matches_dot_inv in H as (? & ? & ?).
  - apply andb_true_iff in H as [H1 H2].
    change (@nil ascii) with (@nil ascii ++ []). constructor; tauto.
  - apply matches_cat_inv in H as (u & v & Huv & Hu & Hv).
    symmetry in Huv. apply app_eq_nil in Huv as [-> ->].
    apply andb_true_iff; split; tauto.
  - apply orb_true_iff in H as [H|H]; [apply m_alt_l|apply m_alt_r]; tauto.
  - apply orb_true_iff. apply matches_alt_inv in H. tauto.
Qed.

Lemma star_cons_inv r c s :
  matches (Star r) (c :: s) →
  ∃ u v, s = u ++ v ∧ matches r (c :: u) ∧ matches (Star r) v.
Proof.
  intros H. remember (Star r) as r' eqn:Er. remember (c :: s) as w eqn:Ew.
  revert s Ew. induction H; intros s0 Ew; try discriminate.
  simplify_eq. destruct u as [|a u]; simplify_eq/=.
  - by apply IHmatches2.
  - eauto.
Qed.

Lemma deriv_spec c r : ∀ s, matches (deriv c r) s ↔ matches r (c :: s).
Proof.
  induction r as [| |d| |r1 IH1 r2 IH2|r1 IH1 r2 IH2|r IH]; intros w; simpl.
  - split; intros H; by apply matches_void_inv in H.
  - split; intros H.
    + by apply matches_void_inv in H.
    + by apply matches_eps_inv in H.
  - destruct (Ascii.eqb_spec c d) as [->|Hne]; split; intros H.
    + apply matches_eps_inv in H as ->. constructor.
    + apply matches_chr_inv in H. simplify_eq. constructor.
    + by apply matches_void_inv in H.
    + apply matches_chr_inv in H. congruence.
  - destruct (dot_ok c) eqn:Hd; split; intros H.
    + apply matches_eps_inv in H as ->. by constructor.
    + apply matches_dot_inv in H as (? & ? & ?). simplify_eq. constructor.
    + by apply matches_void_inv in H.
    + apply matches_dot_inv in H as (? & ? & ?). congruence.
  - assert (Hcat : matches (Cat (deriv c r1) r2) w →
                   matches (Cat r1 r2) (c :: w)).
    { intros H. apply matches_cat_inv in H as (u & v & -> & Hu & Hv).
      apply matches_cat_cons; [by apply IH1|done]. }
    destruct (nullable r1) eqn:Hn.
    + split; intros H.
      * apply matches_alt_inv in H as [H|H]; [by apply Hcat|].
        apply IH2 in H. apply nullable_spec in Hn.
        change (c :: w) with ([] ++ c :: w). by constructor.
      * apply matches_cat_inv in H as (u & v & Huv & Hu & Hv).
        destruct u as [|a u]; simplify_eq/=.
        -- apply m_alt_r, IH2. done.
        -- apply m_alt_l. constructor; [|done]. by apply IH1.
    + split; intros H; [by apply Hcat|].
      apply matches_cat_inv in H as (u & v & Huv & Hu & Hv).
      destruct u as [|a u]; simplify_eq/=.
      * apply nullable_spec in Hu. congruence.
      * constructor; [|done]. by apply IH1.
  - split; intros H; apply matches_alt_inv in H as [H|H].
    + apply m_alt_l. by apply IH1.
    + apply m_alt_r. by apply IH2.
    + apply m_alt_l. by apply IH1.
    + apply m_alt_r. by apply IH2.
  - split; intros H.
    + apply matches_cat_inv in H as (u & v & -> & Hu & Hv).
      change (c :: u ++ v) with ((c :: u) ++ v). constructor; [|done].
      by apply IH.
    + apply star_cons_inv in H as (u & v & -> & Hu & Hv).
      constructor; [|done]. by apply IH.
Qed.

Lemma match_prefix_spec s : ∀ r,
  match_prefix r s = true ↔ ∃ u v, s = u ++ v ∧ matches r u.
Proof.
  induction s as [|c s IH]; intros r; simpl.
  - rewrite orb_false_r, nullable_spec. split.
    + intros H. by exists [], [].
    + intros (u & v & Huv & H). symmetry in Huv.
      apply app_eq_nil in Huv as [-> ->]. done.
  - rewrite orb_true_iff, nullable_spec, IH. split.
    + intros [H|(u & v & -> & H)].
      * by exists [], (c :: s).
      * exists (c :: u), v. split; [done|]. by apply deriv_spec.
    + intros (u & v & Huv & H). destruct u as [|a u]; simpl in *.
      * by left.
      * simplify_eq/=. right. exists u, v. split; [done|].
        by apply deriv_spec.
Qed.

Lemma search_spec r s :
  search r s = true ↔ ∃ a u b, s = a ++ u ++ b ∧ matches r u.
Proof.
  induction s as [|c s IH]; cbn [search].
  - rewrite orb_false_r, match_prefix_spec. split.
    + intros (u & v & -> & H). by exists [], u, v.
    + intros (a & u & b & Hs & H). symmetry in Hs.
      apply app_eq_nil in Hs as [-> Hs]. eauto.
  - rewrite orb_true_iff, match_prefix_spec, IH. split.
    + intros [(u & v & Hs & H)|(a & u & b & -> & H)].
      * by exists [], u, v.
      * by exists (c :: a), u, b.
    + intros (a & u & b & Hs & H). destruct a as [|x a]; simpl in *.
      * left. eauto.
      * simplify_eq/=. right. eauto 10.
Qed.

(** *** Patterns without special characters *)

Lemma cat_atoms_snoc l a : cat_atoms (l ++ [a]) = Cat a.1 (cat_atoms l).
Proof. unfold cat_atoms. by rewrite foldl_app. Qed.

Lemma lits_cons c p : lits (c :: p) = Cat (Chr c) (lits p).
Proof. unfold lits. simpl. by rewrite cat_atoms_snoc. Qed.

Lemma matches_lits p : ∀ u, matches (lits p) u ↔ u = p.
Proof.
  induction p as [|c p IH]; intros u.
  - split; [apply matches_eps_inv|intros ->; constructor].
  - rewrite lits_cons. split.
    + intros H. apply matches_cat_inv in H as (x & y & -> & Hx & Hy).
      apply matches_chr_inv in Hx as ->. apply IH in Hy as ->. done.
    + intros ->. change (c :: p) with ([c] ++ p).
      constructor; [constructor|by apply IH].
Qed.

Lemma plain_char_tests c :
  plain_char c = true →
  Ascii.eqb c "(" = false ∧ Ascii.eqb c ")" = false ∧
  Ascii.eqb c "|" = false ∧ is_quantifier c = false ∧
  Ascii.eqb c "." = false ∧ is_unmodelled c = false.
Proof.
  unfold plain_char. rewrite negb_true_iff, !orb_false_iff. tauto.
Qed.

Lemma parse_plain p : ∀ cur,
  forallb plain_char p = true →
  parse p cur [] =
  Ok (close {| alts := alts cur; atoms := rev (map lit p) ++ atoms cur |}).
Proof.
  induction p as [|c p IH]; intros cur Hp.
  - by destruct cur.
  - simpl in Hp. apply andb_true_iff in Hp as [Hc Hp].
    apply plain_char_tests in Hc as (H1 & H2 & H3 & H4 & H5 & H6).
    cbn [parse]. rewrite H1, H2, H3, H4, H5, H6, (IH _ Hp).
    simpl. by rewrite <- app_assoc.
Qed.

Lemma compile_plain pat :
  plain pat = true → compile pat = Ok (lits (String.list_ascii_of_string pat)).
Proof.
  intros Hp. unfold compile. rewrite parse_plain by done.
  simpl. by rewrite app_nil_r.
Qed.

Lemma is_prefix_spec p : ∀ s, is_prefix p s = true ↔ ∃ v, s = p ++ v.
Proof.
  induction p as [|a p IH]; intros [|b s]; simpl.
  - split; [by exists []|done].
  - split; [by exists (b :: s)|done].
  - split; [done|by intros [v Hv]].
  - rewrite andb_true_iff, IH. split.
    + intros [Hab [v ->]]. apply Ascii.eqb_eq in Hab as ->. by exists v.
    + intros [v Hv]. simplify_eq. split; [apply Ascii.eqb_refl|by exists v].
Qed.

Lemma occurs_in_spec p s :
  occurs_in p s = true ↔ ∃ a b, s = a ++ p ++ b.
Proof.
  induction s as [|c s IH]; cbn [occurs_in].
  - rewrite orb_false_r, is_prefix_spec. split.
    + intros [v ->]. by exists [], v.
    + intros (a & b & Hs). symmetry in Hs.
      apply app_eq_nil in Hs as [-> Hs]. eauto.
  - rewrite orb_true_iff, is_prefix_spec, IH. split.
    + intros [[v Hv]|(a & b & ->)].
      * by exists [], v.
      * by exists (c :: a), b.
    + intros (a & b & Hs). destruct a as [|x a]; simplify_eq/=; eauto.
Qed.

(** On such a pattern the search is the literal test. *)
Lemma search_lits p s : search (lits p) s = occurs_in p s.
Proof.
  apply eq_true_iff_eq. rewrite search_spec, occurs_in_spec. split.
  - intros (a & u & b & -> & Hu). apply matches_lits in Hu as ->. eauto.
  - intros (a & b & ->). exists a, p, b. split; [done|]. by apply matches_lits.
Qed.

End ReFacts.

Lemma str_contains_plain col pat :
  plain pat = true →
  str_contains col pat = Ok (map (literal_substring pat) col).
Proof.
  intros Hp. unfold str_contains. rewrite ReFacts.compile_plain by done.
  simpl. f_equal. apply map_ext. intros s. apply ReFacts.search_lits.
Qed.

(** ** Facts about the recommendation resolver *)

Section Resolver.

Implicit Types (df : DataFrame) (rules : list Rule) (t sid : string).

Lemma elem_of_unique_from seen l x :
  x ∈ unique_from seen l ↔ x ∈ l ∧ x ∉ seen.
Proof.
  revert seen. induction l as [|y l IH]; intros seen; simpl.
  - set_solver.
  - destruct (decide (y ∈ seen)) as [Hy|Hy].
    + rewrite IH. set_solver.
    + rewrite elem_of_cons, IH. split.
      * intros [->|[Hx Hs]]; set_solver.
      * intros [Hx Hs]. destruct (decide (x = y)); set_solver.
Qed.

Lemma elem_of_unique l x : x ∈ unique l ↔ x ∈ l.
Proof. unfold unique. rewrite elem_of_unique_from. set_solver. Qed.

Lemma NoDup_unique_from seen l : NoDup (unique_from seen l).
Proof.
  revert seen. induction l as [|y l IH]; intros seen; simpl.
  - constructor.
  - destruct (decide (y ∈ seen)); [done|].
    constructor; [|done]. rewrite elem_of_unique_from. set_solver.
Qed.

Lemma elem_of_weak_topics sid df t :
  t ∈ weak_topics sid df ↔ has_incorrect_attempt sid t df.
Proof.
  unfold weak_topics, has_incorrect_attempt.
  rewrite elem_of_unique, list_elem_of_fmap. split.
  - intros (r & -> & Hr). apply list_elem_of_filter in Hr as [[? ?] ?]. eauto 10.
  - intros (r & Hr & ? & ? & ?). exists r. split; [done|].
    apply list_elem_of_filter. done.
Qed.

Lemma elem_of_add_per_rule t matched recs x :
  x ∈ add_per_rule t matched recs ↔ x ∈ recs ∨ (x = t ∧ matched ≠ []).
Proof.
  unfold add_per_rule. revert recs.
  induction matched as [|m matched IH]; intros recs; simpl.
  - naive_solver.
  - rewrite IH. set_solver.
Qed.


Lemma select_map {A} (f : A → bool) (l : list A) :
  select l (map f l) = filter (λ x, f x = true) l.
Proof.
  unfold select. induction l as [|x l IH]; [done|].
  cbn [map zip zip_with]. rewrite !filter_cons. simpl.
  destruct (decide (f x = true)); simpl; by rewrite IH.
Qed.

(** On topics without special characters the loop never fails, and adds
    exactly the topics that some rule mentions literally. *)
Lemma plain_pattern t : plain ("Topic_" +:+ t) = plain t.
Proof. reflexivity. Qed.

Lemma recommend_loop_plain topics rules : ∀ recs,
  Forall (λ t, plain t = true) topics →
  ∃ out, recommend_loop topics rules recs = Ok out ∧
         ∀ x, x ∈ out ↔ x ∈ recs ∨ (x ∈ topics ∧ mentioned rules x).
Proof.
  induction topics as [|t topics IH]; intros recs Hp; simpl.
  - exists recs. split; [done|]. set_solver.
  - apply Forall_cons in Hp as [Ht Hp].
    rewrite str_contains_plain by (by rewrite plain_pattern). simpl.
    destruct (IH (add_per_rule t
      (select rules (map (literal_substring ("Topic_" +:+ t))
                         (map antecedents rules))) recs) Hp)
      as (out & Hrun & Hout).
    exists out. split; [done|]. intros x. rewrite Hout, elem_of_add_per_rule.
    rewrite map_map, select_map.
    assert (filter (λ r, literal_substring ("Topic_" +:+ t) (antecedents r) = true)
              rules ≠ [] ↔ mentioned rules t) as ->.
    { unfold mentioned. split.
      - intros Hne. destruct (filter _ rules) as [|r l] eqn:E; [done|].
        assert (r ∈ filter (λ r, literal_substring ("Topic_" +:+ t)
                                   (antecedents r) = true) rules) as Hr
          by (rewrite E; left).
        apply list_elem_of_filter in Hr as [? ?]. eauto.
      - intros (r & Hr & Hm) E.
        assert (r ∈ filter (λ r, literal_substring ("Topic_" +:+ t)
                                   (antecedents r) = true) rules) as Hr'
          by (by apply list_elem_of_filter).
        rewrite E in Hr'. by apply not_elem_of_nil in Hr'. }
    rewrite elem_of_cons. naive_solver.
Qed.

End Resolver.

(** ** Facts about the script monad and the random draws *)

Lemma only_entropy_refl w : only_entropy w w.
Proof. by repeat split. Qed.

Lemma only_entropy_trans w1 w2 w3 :
  only_entropy w1 w2 → only_entropy w2 w3 → only_entropy w1 w3.
Proof. unfold only_entropy. intros (?&?&?) (?&?&?). repeat split; congruence. Qed.

Lemma draw_spec w : ∃ r w', draw w = (Ok r, w') ∧ only_entropy w w'.
Proof.
  unfold draw. destruct (entropy w) as [|r e]; eexists _, _; split; try done;
    by repeat split.
Qed.

Lemma randint_spec lo hi w :
  lo ≤ hi →
  ∃ t w', randint lo hi w = (Ok t, w') ∧ lo ≤ t ≤ hi ∧ only_entropy w w'.
Proof.
  intros Hle. unfold randint, bind.
  destruct (draw_spec w) as (r & w' & -> & Hw). unfold ret.
  eexists _, _. split; [done|]. split; [|done].
  pose proof (Z.mod_pos_bound (Z.of_nat r) (hi - lo + 1)). lia.
Qed.

(** Sampling never fails once the size is within the population, takes
    rows of the population, each at most once. *)
Lemma sample_loop_spec {A} n : ∀ (population : list A) w,
  (n ≤ length population)%nat →
  ∃ s w', sample_loop n population w = (Ok s, w') ∧
          length s = n ∧ s ⊆+ population ∧ only_entropy w w'.
Proof.
  induction n as [|n IH]; intros population w Hn; simpl.
  - exists [], w. split; [done|]. split; [done|].
    split; [apply submseteq_nil_l|apply only_entropy_refl].
  - unfold bind. destruct (draw_spec w) as (r & w1 & -> & Hw1).
    assert (r mod length population < length population)%nat as Hi
      by (apply Nat.mod_upper_bound; lia).
    destruct (lookup_lt_is_Some_2 _ _ Hi) as [x Hx]. rewrite Hx.
    destruct (IH (delete (r mod length population)%nat population) w1)
      as (s & w2 & -> & Hlen & Hsub & Hw2).
    { rewrite length_delete by eauto. lia. }
    exists (x :: s), w2. unfold ret. split; [done|].
    split; [simpl; lia|]. split; [|by apply (only_entropy_trans _ w1)].
    rewrite (delete_Permutation _ _ _ Hx). by apply submseteq_skip.
Qed.

Lemma sample_spec {A} n (frame : list A) w :
  if decide (length frame < n)%nat
  then sample n frame w = (Raise ValueError, w)
  else ∃ s w', sample n frame w = (Ok s, w') ∧
               length s = n ∧ s ⊆+ frame ∧ only_entropy w w'.
Proof.
  unfold sample. destruct (decide _); [done|].
  apply sample_loop_spec. lia.
Qed.

(** ** Facts about the submit handler *)

Lemma sum_Z_app l1 l2 : sum_Z (l1 ++ l2) = sum_Z l1 + sum_Z l2.
Proof. induction l1 as [|x l1 IH]; simpl; lia. Qed.

Lemma sum_Z_bits l :
  Forall (λ x, x = 0 ∨ x = 1) l → 0 ≤ sum_Z l ≤ Z.of_nat (length l).
Proof. induction 1 as [|x l [->| ->] _ IH]; simpl; lia. Qed.


(** The scoring loop, when every question of the session has an answer
    on record: it ends normally, adds one row per question, in order, and
    counts the rows marked correct. *)
Lemma score_loop_spec sid answers qs : ∀ new_rows count w,
  (∀ p, p ∈ qs → is_Some (answers !! p.1)) →
  ∃ rows w',
    score_loop sid answers qs new_rows count w
      = (Ok (new_rows ++ rows, count + sum_Z (map is_correct rows)), w') ∧
    Forall2 (synthesized sid answers) qs rows ∧
    only_entropy w w'.
Proof.
  induction qs as [|[idx row] qs IH]; intros new_rows count w Hans; simpl.
  - exists [], w. rewrite app_nil_r, Z.add_0_r.
    split; [done|]. split; [constructor|apply only_entropy_refl].
  - destruct (Hans (idx, row)) as [a Ha]; [left|]. simpl in Ha. rewrite Ha.
    unfold bind at 1.
    destruct (randint_spec 15 60 w) as (t & w1 & -> & Ht & Hw1); [lia|].
    set (correct := bool_decide (a = correct_answer row)).
    set (nr := {| student_id := sid; question_id := question_id row;
                  topic := topic row; difficulty := difficulty row;
                  question_type := question_type row; student_answer := a;
                  correct_answer := correct_answer row;
                  is_correct := Z.b2z correct; score := Z.b2z correct;
                  time_spent := t |}).
    destruct (IH (new_rows ++ [nr])
                 (if correct then count + 1 else count) w1)
      as (rows & w2 & Hrun & Hrows & Hw2).
    { intros p Hp. apply Hans. by right. }
    rewrite Hrun. exists (nr :: rows), w2. split; [|split].
    + rewrite <- app_assoc. simpl. do 3 f_equal.
      destruct correct; simpl; lia.
    + constructor; [|done]. exists a. subst nr correct. simpl.
      repeat split; try done; try lia. by case_bool_decide; case_decide.
    + by apply (only_entropy_trans _ w1).
Qed.

Lemma percentage_spec count n :
  n ≠ 0%nat →
  percentage count n =
  Ok (Qc_of_Z 100 * Qc_of_Z count / Qc_of_Z (Z.of_nat n))%Qc.
Proof.
  intros Hn. unfold percentage. destruct (decide _); [done|].
  f_equal. unfold Qcdiv. ring.
Qed.

(** The submit handler as a whole. *)
Lemma submit_exam_spec sid df qs w answers :
  session_answers w = Some answers →
  (∀ p, p ∈ qs → is_Some (answers !! p.1)) →
  ∃ rows w',
    submit_exam sid df qs w =
      (rmap (λ pct, {| correct_count := sum_Z (map is_correct rows);
                       session_size := length qs;
                       exam_score := pct |})
            (percentage (sum_Z (map is_correct rows)) (length qs)), w') ∧
    Forall2 (synthesized sid answers) qs rows ∧
    processed_data w' = (df ++ rows)%list ∧
    fp_growth_rules w' = fp_growth_rules w ∧
    session_answers w' = session_answers w.
Proof.
  intros Hsa Hans. unfold submit_exam, bind at 1, get_world. rewrite Hsa.
  destruct (score_loop_spec sid answers qs [] 0 w Hans)
    as (rows & w1 & Hrun & Hrows & (_ & Hr & Ha)).
  unfold bind at 1. rewrite Hrun. simpl.
  eexists rows, _. split; [|split; [done|]].
  - unfold bind, to_csv, lift, ret. simpl.
    destruct (percentage _ _); simpl; reflexivity.
  - simpl. repeat split; congruence.
Qed.

(** ** What a run does to the attempt log *)

Section Keeps.

Context (Q : DataFrame → Prop).

Lemma keeps_ret {A} (a : A) : keeps Q (ret a).
Proof. by intros w. Qed.

Lemma keeps_raise {A} e : keeps Q (@raise A e).
Proof. by intros w. Qed.

Lemma keeps_lift {A} (r : result A) : keeps Q (lift r).
Proof. by intros w. Qed.

Lemma keeps_get_world : keeps Q get_world.
Proof. by intros w. Qed.

Lemma keeps_bind {A B} (m : M A) (k : A → M B) :
  keeps Q m → (∀ a, keeps Q (k a)) → keeps Q (bind m k).
Proof.
  intros Hm Hk w Hw. unfold bind. specialize (Hm w Hw).
  destruct (m w) as [[a| |] w1]; simpl in *; try done. by apply Hk.
Qed.

Lemma keeps_draw : keeps Q draw.
Proof. intros w Hw. unfold draw. by destruct (entropy w). Qed.

Lemma keeps_set_answers a : keeps Q (set_answers a).
Proof. by intros w. Qed.

Lemma keeps_to_csv df : Q df → keeps Q (to_csv df).
Proof. by intros Hdf w _. Qed.

Lemma keeps_randint lo hi : keeps Q (randint lo hi).
Proof. apply keeps_bind; [apply keeps_draw|intros; apply keeps_ret]. Qed.

Lemma keeps_sample_loop {A} n : ∀ l : list A, keeps Q (sample_loop n l).
Proof.
  induction n as [|n IH]; intros l; simpl; [apply keeps_ret|].
  apply keeps_bind; [apply keeps_draw|]. intros r.
  destruct (l !! _); [|apply keeps_ret].
  apply keeps_bind; [apply IH|intros; apply keeps_ret].
Qed.

Lemma keeps_sample {A} n (l : list A) : keeps Q (sample n l).
Proof.
  unfold sample. destruct (decide _);
    [apply keeps_raise|apply keeps_sample_loop].
Qed.

Lemma keeps_score_loop sid answers qs :
  ∀ new_rows count, keeps Q (score_loop sid answers qs new_rows count).
Proof.
  induction qs as [|[idx row] qs IH]; intros new_rows count; simpl.
  - apply keeps_ret.
  - destruct (answers !! idx); [|apply keeps_raise].
    apply keeps_bind; [apply keeps_randint|]. intros t. apply IH.
Qed.

(** The only write of the script: the loaded table followed by new rows. *)
Lemma keeps_submit_exam sid df qs :
  (∀ rows, Q (df ++ rows)) → keeps Q (submit_exam sid df qs).
Proof.
  intros Hdf. unfold submit_exam.
  apply keeps_bind; [apply keeps_get_world|]. intros w.
  destruct (session_answers w); [|apply keeps_raise].
  apply keeps_bind; [apply keeps_score_loop|]. intros scored.
  apply keeps_bind; [by apply keeps_to_csv|]. intros _.
  apply keeps_bind; [apply keeps_lift|]. intros pct. apply keeps_ret.
Qed.

Lemma keeps_take_exam req sid df rules :
  (∀ rows, Q (df ++ rows)) → keeps Q (take_exam req sid df rules).
Proof.
  intros Hdf. unfold take_exam.
  apply keeps_bind; [apply keeps_lift|]. intros recs0.
  apply keeps_bind; [apply keeps_lift|]. intros focused.
  apply keeps_bind; [apply keeps_sample|]. intros qs.
  apply keeps_bind; [apply keeps_get_world|]. intros w.
  apply keeps_bind; [apply keeps_set_answers|]. intros _.
  destruct (submit_clicked req); [|apply keeps_ret].
  apply keeps_bind; [by apply keeps_submit_exam|]. intros s. apply keeps_ret.
Qed.

Lemma keeps_render_page req sid df rules :
  (∀ rows, Q (df ++ rows)) → keeps Q (render_page req sid df rules).
Proof.
  intros Hdf. unfold render_page. destruct (page req).
  - apply keeps_ret.
  - apply keeps_ret.
  - by apply keeps_take_exam.
  - apply keeps_bind; [apply keeps_lift|]. intros recs. apply keeps_ret.
Qed.

End Keeps.

Lemma app_unfold req w :
  app req w =
  if bool_decide (text_input req = "") then (Ok Welcome, w)
  else if bool_decide (text_input req ∉ map student_id (processed_data w))
       then (Ok InvalidStudent, w)
       else render_page req (text_input req) (processed_data w)
                        (fp_growth_rules w) w.
Proof.
  unfold app, bind, read_processed_data, read_fp_growth_rules.
  by repeat case_bool_decide.
Qed.

(** ** Facts about the exam page *)

Lemma iterrows_labels (df : DataFrame) : (iterrows df).*1 = seq 0 (length df).
Proof.
  unfold iterrows. rewrite fmap_imap.
  rewrite (imap_ext _ (λ i _, i)) by done. by rewrite imap_seq_0, list_fmap_id.
Qed.

Lemma elem_of_iterrows (df : DataFrame) i r :
  (i, r) ∈ iterrows df ↔ df !! i = Some r.
Proof.
  unfold iterrows. rewrite elem_of_lookup_imap. split.
  - intros (j & y & ? & ?). by simplify_eq.
  - intros H. by exists i, r.
Qed.

Lemma candidates_labels_NoDup recs df : NoDup (candidates recs df).*1.
Proof.
  unfold candidates.
  apply (sublist_NoDup _ (iterrows df).*1).
  - rewrite iterrows_labels. apply NoDup_seq.
  - apply fmap_sublist, sublist_filter.
Qed.

Lemma submseteq_NoDup {A} (l k : list A) : l ⊆+ k → NoDup k → NoDup l.
Proof.
  intros Hsub Hk. apply submseteq_Permutation in Hsub as [k' Hperm].
  rewrite Hperm in Hk. by apply NoDup_app in Hk as [? _].
Qed.

Lemma filter_all {A} (P : A → Prop) `{!∀ x, Decision (P x)} (l : list A) :
  (∀ x, x ∈ l → P x) → filter P l = l.
Proof.
  induction l as [|x l IH]; intros Hall; [done|].
  rewrite filter_cons, decide_True by (apply Hall; left).
  f_equal. apply IH. intros y Hy. apply Hall. by right.
Qed.

(** Lines 275-276 and the row filter of line 280. *)
Lemma candidates_recommended recs df :
  recs ≠ [] →
  candidates (fallback recs df) df =
  filter (λ p, topic p.2 ∈ recs) (iterrows df).
Proof.
  intros Hne. unfold fallback. by rewrite bool_decide_eq_false_2.
Qed.

Lemma candidates_fallback df : candidates (fallback [] df) df = iterrows df.
Proof.
  unfold fallback, candidates. simpl.
  apply filter_all. intros [i r] Hin. simpl.
  apply elem_of_unique, list_elem_of_fmap. exists r. split; [done|].
  apply elem_of_iterrows in Hin. by eapply list_elem_of_lookup_2.
Qed.

(** The sampling step of line 280, as it is called. *)
Lemma exam_sampling_spec recs df w :
  if decide (length (candidates recs df) < min 5 (length df))%nat
  then sample (min 5 (length df)) (candidates recs df) w
       = (Raise ValueError, w)
  else ∃ qs w',
    sample (min 5 (length df)) (candidates recs df) w = (Ok qs, w') ∧
    length qs = min 5 (length df) ∧
    (length qs ≤ 5)%nat ∧
    (length qs ≤ length (candidates recs df))%nat ∧
    NoDup qs.*1 ∧
    qs ⊆ candidates recs df ∧
    only_entropy w w'.
Proof.
  pose proof (sample_spec (min 5 (length df)) (candidates recs df) w) as H.
  destruct (decide _) as [Hlt|Hge]; [done|].
  destruct H as (qs & w' & Hrun & Hlen & Hsub & Hw).
  pose proof (submseteq_length _ _ Hsub) as Hle.
  exists qs, w'. split; [done|]. split; [done|].
  split; [lia|]. split; [lia|]. split; [|split; [|done]].
  - apply (submseteq_NoDup _ (candidates recs df).*1).
    + by apply fmap_submseteq.
    + apply candidates_labels_NoDup.
  - intros p Hp. by eapply elem_of_submseteq.
Qed.

Lemma record_answers_lookup req qs : ∀ answers i,
  i ∈ qs.*1 → is_Some (record_answers req qs answers !! i).
Proof.
  unfold record_answers.
  induction qs as [|q qs IH] using rev_ind; intros answers i Hi.
  - by apply not_elem_of_nil in Hi.
  - rewrite foldl_app. simpl. rewrite fmap_app in Hi.
    destruct (decide (q.1 = i)) as [<-|Hne].
    + rewrite lookup_insert_eq. eauto.
    + rewrite lookup_insert_ne by done. apply IH. set_solver.
Qed.

Lemma record_answers_covers req qs answers p :
  p ∈ qs → is_Some (record_answers req qs answers !! p.1).
Proof.
  intros Hp. apply record_answers_lookup, list_elem_of_fmap. eauto.
Qed.

(** The counter of the scoring loop counts the questions whose recorded
    answer is the row's [correct_answer]. *)
Lemma count_matches sid answers qs rows :
  Forall2 (synthesized sid answers) qs rows →
  sum_Z (map is_correct rows) =
  Z.of_nat (length (filter (λ p, answers !! p.1 = Some (correct_answer p.2)) qs)).
Proof.
  induction 1 as [|p nr qs rows Hs _ IH]; [done|].
  destruct Hs as (a & Ha & _ & _ & _ & _ & _ & _ & _ & Hc & _).
  rewrite filter_cons. simpl. rewrite IH, Hc, Ha.
  destruct (decide (a = _)) as [->|Hne].
  - rewrite decide_True by done. simpl. lia.
  - rewrite decide_False by congruence. lia.
Qed.

(** The answer on record for a question on screen is the option selected
    in its radio button. *)
Lemma record_answers_selected req qs : ∀ answers p,
  NoDup qs.*1 → p ∈ qs →
  record_answers req qs answers !! p.1
  = Some (option_text (radio req p.1) p.2).
Proof.
  unfold record_answers.
  induction qs as [|q qs IH] using rev_ind; intros answers p Hnd Hp.
  - by apply not_elem_of_nil in Hp.
  - rewrite foldl_app. simpl. rewrite fmap_app in Hnd.
    apply NoDup_app in Hnd as (Hnd & Hfresh & _).
    apply elem_of_app in Hp as [Hp|Hp].
    + rewrite lookup_insert_ne; [by apply IH|].
      intros Heq. apply (Hfresh p.1).
      * apply list_elem_of_fmap. eauto.
      * rewrite <- Heq. simpl. left.
    + apply list_elem_of_singleton in Hp as ->. by rewrite lookup_insert_eq.
Qed.

(** A run of the exam page that gets past the sampling step and has the
    submit button pressed: it reports a score and appends one row per
    question; neither [KeyError] nor [ZeroDivisionError] can occur. *)
Lemma take_exam_submit req sid df rules w recs0 focused qs w1 :
  get_recommendations sid df rules = Ok recs0 →
  truth (fallback recs0 df) = Ok focused →
  sample (min 5 (length df)) (candidates (fallback recs0 df) df) w
    = (Ok qs, w1) →
  submit_clicked req = true →
  df ≠ [] →
  ∃ s rows w2,
    take_exam req sid df rules w
      = (Ok (ExamPage (if focused then "Focused on weak areas"
                       else "General assessment") qs (Some s)), w2) ∧
    processed_data w2 = df ++ rows ∧
    Forall2 (synthesized sid
               (record_answers req qs (default ∅ (session_answers w1))))
            qs rows ∧
    session_size s = length qs ∧
    correct_count s = sum_Z (map is_correct rows).
Proof.
  intros Hrec Htruth Hsample Hsubmit Hdf.
  pose proof (exam_sampling_spec (fallback recs0 df) df w) as Hspec.
  destruct (decide _) as [|_]; [congruence|].
  destruct Hspec as (qs' & w' & Hrun & Hlen & _ & _ & Hnd & _ & _).
  rewrite Hsample in Hrun. simplify_eq.
  set (answers := record_answers req qs' (default ∅ (session_answers w'))).
  destruct (submit_exam_spec sid df qs' (set_answers answers w').2 answers) as
    (rows & w3 & Hsub & Hrows & Hdata & _).
  { reflexivity. }
  { intros p Hp. by apply record_answers_covers. }
  rewrite percentage_spec in Hsub by (destruct df; simpl in *; [done|lia]).
  eexists _, rows, w3. split.
  - unfold take_exam, bind, lift. rewrite Hrec, Htruth, Hsample. simpl.
    rewrite Hsubmit. fold answers. simpl in Hsub. by rewrite Hsub.
  - done.
Qed.

(** ** The claims *)

(** The example of the specification. *)
Example recommend_spec_example :
  get_recommendations "S12" df_spec_example rules_algebra = Ok ["Algebra"].
Proof. reflexivity. Qed.

(** C1 (the code departs from the claim).  The sample size is
    [min(5, len(df))], the size of the whole log, not of the candidate
    rows.  With one candidate row in a log of six, the resolver
    recommends Algebra, the requested size is 5, and the run ends with
    [ValueError] whatever the random draws: the size is not clamped to
    the candidates. *)
Theorem sample_size_ignores_candidates :
  get_recommendations "S12" df_one_candidate rules_algebra = Ok ["Algebra"] ∧
  length (candidates (fallback ["Algebra"] df_one_candidate) df_one_candidate)
    = 1%nat ∧
  min 5 (length df_one_candidate) = 5%nat ∧
  ∀ e, app (request "S12" TakeExam OptionCorrect false)
           (world df_one_candidate rules_algebra e)
       = (Raise ValueError, world df_one_candidate rules_algebra e).
Proof. repeat split. Qed.

(** C2 (the code departs from the claim).  [str.contains] reads
    ["Topic_" + t] as a regular expression.  For the topic [A.B] the
    dot accepts any character, so a rule on [Topic_AxB] matches; for
    [f(x)] and [a+b] the rule that names the topic literally does not
    match; for [f(x] the pattern does not compile and the resolver
    raises. *)
Theorem rule_test_reads_topic_as_pattern :
  (str_contains ["Topic_AxB"] ("Topic_" +:+ "A.B") = Ok [true] ∧
   literal_substring ("Topic_" +:+ "A.B") "Topic_AxB" = false) ∧
  (str_contains ["frozenset({'Topic_f(x)'})"] ("Topic_" +:+ "f(x)") = Ok [false] ∧
   literal_substring ("Topic_" +:+ "f(x)") "frozenset({'Topic_f(x)'})" = true) ∧
  (str_contains ["frozenset({'Topic_a+b'})"] ("Topic_" +:+ "a+b") = Ok [false] ∧
   literal_substring ("Topic_" +:+ "a+b") "frozenset({'Topic_a+b'})" = true) ∧
  str_contains ["frozenset({'Topic_f(x'})"] ("Topic_" +:+ "f(x") = Raise ReError ∧
  get_recommendations "S1" df_dot [rule "Topic_AxB"] = Ok ["A.B"] ∧
  get_recommendations "S1" df_open [rule "frozenset({'Topic_f(x'})"]
    = Raise ReError.
Proof. repeat split. Qed.



(** On topics without special characters the resolver does include
    every weak topic that a rule names. *)
Lemma get_recommendations_plain sid df rules t :
  Forall (λ t, plain t = true) (weak_topics sid df) →
  has_incorrect_attempt sid t df →
  mentioned rules t →
  ∃ recs, get_recommendations sid df rules = Ok recs ∧ t ∈ recs.
Proof.
  intros Hp Hweak Hm. unfold get_recommendations.
  destruct (recommend_loop_plain (weak_topics sid df) rules ∅ Hp)
    as (out & -> & Hout).
  eexists. split; [done|]. apply elem_of_elements, Hout. right.
  split; [by apply elem_of_weak_topics|done].
Qed.

(** C4 (the code departs from the claim).  The student has an
    incorrect attempt on [f(x)] (resp. [a+b]) and a rule whose
    antecedents contain [Topic_f(x)] (resp. [Topic_a+b]) literally, yet
    the resolver returns the empty list. *)
Theorem literal_mention_not_recommended :
  has_incorrect_attempt "S1" "f(x)" df_paren ∧
  mentioned [rule "frozenset({'Topic_f(x)'})"] "f(x)" ∧
  get_recommendations "S1" df_paren [rule "frozenset({'Topic_f(x)'})"] = Ok [] ∧
  has_incorrect_attempt "S1" "a+b" df_plus ∧
  mentioned [rule "frozenset({'Topic_a+b'})"] "a+b" ∧
  get_recommendations "S1" df_plus [rule "frozenset({'Topic_a+b'})"] = Ok [].
Proof.
  repeat split.
  - eexists. split; [left|]. done.
  - eexists. split; [left|]. done.
  - eexists. split; [left|]. done.
  - eexists. split; [left|]. done.
Qed.



(** C6.  After a submission of [N] answered questions the stored table
    has the rows of the starting table plus [N]; the row at position
    [len(df) + k] carries the student, the fields of question [k], the
    recorded answer and its correctness, and a [time_spent] between 15
    and 60. *)
Theorem submission_round_trip sid df qs w answers :
  session_answers w = Some answers →
  (∀ p, p ∈ qs → is_Some (answers !! p.1)) →
  let w' := (submit_exam sid df qs w).2 in
  ∃ store,
    read_processed_data w' = (Ok store, w') ∧
    length store = (length df + length qs)%nat ∧
    ∀ k p, qs !! k = Some p →
           ∃ nr, store !! (length df + k)%nat = Some nr ∧
                 synthesized sid answers p nr.
Proof.
  intros Hsa Hans w'. subst w'.
  destruct (submit_exam_spec sid df qs w answers Hsa Hans)
    as (rows & w' & Hrun & Hrows & Hdata & _).
  rewrite Hrun. simpl. exists (df ++ rows).
  split; [unfold read_processed_data; by rewrite Hdata|]. split.
  - rewrite length_app. by rewrite (Forall2_length _ _ _ Hrows).
  - intros k p Hk.
    destruct (Forall2_lookup_l _ _ _ _ _ Hrows Hk) as (nr & Hnr & Hs).
    exists nr. split; [|done].
    rewrite lookup_app_r by lia.
    by replace (length df + k - length df)%nat with k by lia.
Qed.

Lemma submission_round_trip_witness :
  let w' := (submit_exam "S12" df_spec_example one_question world_answered).2 in
  ∃ store,
    read_processed_data w' = (Ok store, w') ∧
    length store = (length df_spec_example + length one_question)%nat ∧
    ∀ k p, one_question !! k = Some p →
           ∃ nr, store !! (length df_spec_example + k)%nat = Some nr ∧
                 synthesized "S12" {[ 0%nat := "4" ]} p nr.
Proof.
  apply (submission_round_trip "S12" df_spec_example one_question
                               world_answered {[ 0%nat := "4" ]}).
  - reflexivity.
  - intros p Hp. apply list_elem_of_singleton in Hp as ->.
    exists "4". reflexivity.
Defined.

(** C7.  Whatever the request, the attempt log after a run starts with
    the attempt log before it: every row is still there, at the same
    position, with the same fields. *)
Theorem attempt_store_append_only req w :
  processed_data w `prefix_of` processed_data (app req w).2 ∧
  ∀ i r, processed_data w !! i = Some r →
         processed_data (app req w).2 !! i = Some r.
Proof.
  assert (processed_data w `prefix_of` processed_data (app req w).2) as Hpre.
  { rewrite app_unfold. repeat case_bool_decide; try done.
    apply (keeps_render_page (λ d, processed_data w `prefix_of` d)); [|done].
    intros rows. by apply prefix_app_r. }
  split; [done|]. intros i r Hi. by apply (prefix_lookup_Some _ _ _ _ Hi).
Qed.

(** C8 (the code departs from the claim).  When the resolver returns
    the empty list and the log has two topics, [recs] becomes the array
    of all topics, and the next line asks for its truth value: the run
    ends with [ValueError] before any candidate row is selected. *)
Theorem fallback_array_has_no_truth_value :
  get_recommendations "S13" df_two_topics rules_algebra = Ok [] ∧
  fallback [] df_two_topics = NdArray ["Algebra"; "Geometry"] ∧
  truth (fallback [] df_two_topics) = Raise ValueError ∧
  ∀ e, app (request "S13" TakeExam OptionCorrect false)
           (world df_two_topics rules_algebra e)
       = (Raise ValueError, world df_two_topics rules_algebra e).
Proof. repeat split. Qed.

(** Without an identifier the run stops at the welcome text. *)
Lemma no_identifier_welcome req w :
  text_input req = "" → app req w = (Ok Welcome, w).
Proof. intros H. rewrite app_unfold. by rewrite bool_decide_eq_true_2. Qed.

(** C9.  An entered (non-empty) identifier that is not in the
    [student_id] column ends the run with the error message and leaves
    the world as it was: no page is computed, no random draw is made,
    nothing is written.  An identifier that is in the column gets the
    selected page. *)
Theorem login_guard req w :
  text_input req ≠ "" →
  (text_input req ∉ map student_id (processed_data w) →
   app req w = (Ok InvalidStudent, w)) ∧
  (text_input req ∈ map student_id (processed_data w) →
   app req w = render_page req (text_input req) (processed_data w)
                           (fp_growth_rules w) w).
Proof.
  intros Hne. rewrite app_unfold. rewrite bool_decide_eq_false_2 by done.
  split; intros Hin; case_bool_decide; done.
Qed.

Lemma login_guard_witness :
  app (request "S999" Dashboard OptionA false)
      (world df_spec_example rules_algebra []) =
    (Ok InvalidStudent, world df_spec_example rules_algebra []) ∧
  app (request "S12" Recommendations OptionA false)
      (world df_spec_example rules_algebra []) =
    (Ok (RecommendationsPage ["Algebra"]),
     world df_spec_example rules_algebra []).
Proof.
  split.
  - apply (proj1 (login_guard (request "S999" Dashboard OptionA false)
                    (world df_spec_example rules_algebra [])
                    ltac:(discriminate))).
    vm_compute. intros H. repeat (apply elem_of_cons in H as [H|H]; [discriminate|]).
    by apply not_elem_of_nil in H.
  - rewrite (proj2 (login_guard (request "S12" Recommendations OptionA false)
                    (world df_spec_example rules_algebra [])
                    ltac:(discriminate))).
    + reflexivity.
    + vm_compute. left.
Defined.

(** C10.  Sampling is over rows of the log.  With two attempts on
    question [Q1] in the log, one exam shows both rows (distinct labels,
    same [question_id]), scores both and appends two rows for [Q1]. *)
Theorem same_question_twice_in_one_exam :
  ∃ qs sub w' i j ri rj n1 n2,
    app (request "S12" TakeExam OptionCorrect true)
        (world df_same_question rules_algebra [3%nat; 1%nat; 4%nat; 1%nat])
      = (Ok (ExamPage "Focused on weak areas" qs (Some sub)), w') ∧
    NoDup qs.*1 ∧
    qs = [(i, ri); (j, rj)] ∧ i ≠ j ∧
    question_id ri = "Q1" ∧ question_id rj = "Q1" ∧
    session_size sub = 2%nat ∧
    processed_data w' = df_same_question ++ [n1; n2] ∧
    question_id n1 = "Q1" ∧ question_id n2 = "Q1" ∧
    student_id n1 = "S12" ∧ student_id n2 = "S12".
Proof.
  do 9 eexists. split; [vm_compute; reflexivity|].
  repeat split; try done.
  repeat constructor; set_solver.
Qed.

(** ** More about the resolver *)

Lemma filter_nonempty {A} (P : A → Prop) `{!∀ x, Decision (P x)} (l : list A) :
  filter P l ≠ [] ↔ ∃ x, x ∈ l ∧ P x.
Proof.
  split.
  - intros Hne. destruct (filter P l) as [|x k] eqn:E; [done|].
    assert (x ∈ filter P l) as Hx by (rewrite E; left).
    apply list_elem_of_filter in Hx as [? ?]. eauto.
  - intros (x & Hx & HP) E.
    assert (x ∈ filter P l) as Hx' by (by apply list_elem_of_filter).
    rewrite E in Hx'. by apply not_elem_of_nil in Hx'.
Qed.

Lemma str_contains_compiled col pat r :
  Re.compile pat = Ok r →
  str_contains col pat
  = Ok (map (λ s, Re.search r (String.list_ascii_of_string s)) col).
Proof. intros H. unfold str_contains. by rewrite H. Qed.

Lemma str_contains_Ok_inv col pat mask :
  str_contains col pat = Ok mask →
  ∃ r, Re.compile pat = Ok r ∧
       mask = map (λ s, Re.search r (String.list_ascii_of_string s)) col.
Proof.
  unfold str_contains. destruct (Re.compile pat) as [r| |]; simpl; [|done..].
  intros ?. simplify_eq. eauto.
Qed.

(** One pass of the outer loop, when the pattern compiles. *)
Lemma rule_test_step rules t r recs x :
  Re.compile ("Topic_" +:+ t) = Ok r →
  x ∈ add_per_rule t
        (select rules
           (map (λ s, Re.search r (String.list_ascii_of_string s))
                (map antecedents rules))) recs
  ↔ x ∈ recs ∨ (x = t ∧ rule_matches rules t).
Proof.
  intros Hc. rewrite elem_of_add_per_rule, map_map, select_map.
  rewrite filter_nonempty. unfold rule_matches. split.
  - intros [?|[-> (rule & ? & ?)]]; [by left|]. right. split; [done|].
    by exists r, rule.
  - intros [?|[-> (r' & rule & Hc' & ? & ?)]]; [by left|]. right.
    split; [done|]. exists rule. split; [done|]. congruence.
Qed.

Lemma recommend_loop_exact topics rules : ∀ recs out,
  recommend_loop topics rules recs = Ok out →
  ∀ x, x ∈ out ↔ x ∈ recs ∨ (x ∈ topics ∧ rule_matches rules x).
Proof.
  induction topics as [|t topics IH]; intros recs out Hrun x; simpl in Hrun.
  - simplify_eq. rewrite elem_of_nil. tauto.
  - destruct (str_contains _ _) as [mask| |] eqn:Hm; simpl in Hrun; try done.
    apply str_contains_Ok_inv in Hm as (r & Hc & ->).
    rewrite (IH _ _ Hrun x), (rule_test_step _ _ _ _ _ Hc), elem_of_cons.
    naive_solver.
Qed.

Lemma recommend_loop_Ok_iff topics rules : ∀ recs,
  (∃ out, recommend_loop topics rules recs = Ok out)
  ↔ Forall compiles topics.
Proof.
  induction topics as [|t topics IH]; intros recs; simpl.
  - split; [constructor|eauto].
  - rewrite Forall_cons. split.
    + intros [out Hrun].
      destruct (str_contains _ _) as [mask| |] eqn:Hm; simpl in Hrun; try done.
      apply str_contains_Ok_inv in Hm as (r & Hc & ->).
      split; [by exists r|]. eapply IH. eauto.
    + intros [[r Hc] Hall].
      rewrite (str_contains_compiled _ _ _ Hc). simpl. by apply IH.
Qed.

Lemma get_recommendations_Ok_inv sid df rules recs :
  get_recommendations sid df rules = Ok recs →
  ∃ out, recommend_loop (weak_topics sid df) rules ∅ = Ok out ∧
         recs = elements out.
Proof.
  unfold get_recommendations, rmap.
  destruct (recommend_loop _ _ _) as [out| |]; simpl; [|done..].
  intros ?. simplify_eq. eauto.
Qed.

Lemma get_recommendations_Ok_iff sid df rules :
  (∃ recs, get_recommendations sid df rules = Ok recs)
  ↔ Forall compiles (weak_topics sid df).
Proof.
  rewrite <- (recommend_loop_Ok_iff _ rules ∅). split.
  - intros [recs H]. apply get_recommendations_Ok_inv in H as (out & ? & _).
    eauto.
  - intros [out H]. exists (elements out). unfold get_recommendations.
    by rewrite H.
Qed.

Lemma get_recommendations_exact sid df rules recs :
  get_recommendations sid df rules = Ok recs →
  ∀ t, t ∈ recs ↔ has_incorrect_attempt sid t df ∧ rule_matches rules t.
Proof.
  intros Hrun t. apply get_recommendations_Ok_inv in Hrun as (out & Hloop & ->).
  rewrite elem_of_elements, (recommend_loop_exact _ _ _ _ Hloop t).
  rewrite elem_of_weak_topics. set_solver.
Qed.

Lemma has_incorrect_attempt_app sid t df rows :
  has_incorrect_attempt sid t df → has_incorrect_attempt sid t (df ++ rows).
Proof.
  intros (r & Hr & ?). exists r. split; [|done]. apply elem_of_app. by left.
Qed.

Lemma weak_topics_own_rows sid df :
  weak_topics sid (filter (λ r, student_id r = sid) df) = weak_topics sid df.
Proof.
  unfold weak_topics. rewrite list_filter_filter. do 2 f_equal.
  apply list_filter_iff. tauto.
Qed.

Lemma get_recommendations_app sid df rows rules recs' :
  get_recommendations sid (df ++ rows) rules = Ok recs' →
  ∃ recs, get_recommendations sid df rules = Ok recs ∧ recs ⊆ recs'.
Proof.
  intros Hrun'.
  assert (∃ recs, get_recommendations sid df rules = Ok recs) as [recs Hrun].
  { apply (proj2 (get_recommendations_Ok_iff sid df rules)), Forall_forall.
    intros t Ht.
    assert (Forall compiles (weak_topics sid (df ++ rows))) as Hall
      by (apply (proj1 (get_recommendations_Ok_iff sid (df ++ rows) rules));
          eauto).
    rewrite Forall_forall in Hall. apply Hall.
    apply elem_of_weak_topics, has_incorrect_attempt_app.
    by apply elem_of_weak_topics. }
  exists recs. split; [done|]. intros t Ht.
  apply (get_recommendations_exact _ _ _ _ Hrun) in Ht as [Hw Hm].
  apply (get_recommendations_exact _ _ _ _ Hrun'). split; [|done].
  by apply has_incorrect_attempt_app.
Qed.

(** ** The exam page, case by case *)

Lemma parse_Raise p : ∀ cur stack e,
  Re.parse p cur stack = Raise e → e = ReError.
Proof.
  induction p as [|c p IH]; intros cur stack e; simpl.
  - destruct stack; [done|]. by intros [= <-].
  - repeat case_match; try done; try (by intros [= <-]); apply IH.
Qed.

Lemma get_recommendations_Raise sid df rules e :
  get_recommendations sid df rules = Raise e → e = ReError.
Proof.
  unfold get_recommendations, rmap. generalize (∅ : gset string).
  induction (weak_topics sid df) as [|t topics IH]; intros recs; simpl; [done|].
  unfold str_contains at 1.
  destruct (Re.compile _) as [r| |] eqn:Hc; simpl.
  - apply IH.
  - intros [= <-]. by apply parse_Raise in Hc.
  - done.
Qed.

Lemma truth_Raise t e : truth t = Raise e → e = ValueError.
Proof. destruct t as [l|[|x [|y l]]]; simpl; try done. by intros [= <-]. Qed.

(** The resolver fails: the page ends there. *)
Lemma take_exam_no_recommendations req sid df rules w :
  (∀ recs0, get_recommendations sid df rules ≠ Ok recs0) →
  take_exam req sid df rules w
  = (match get_recommendations sid df rules with
     | Raise e => Raise e
     | _ => Beyond
     end, w).
Proof.
  intros Hno. unfold take_exam, bind, lift.
  destruct (get_recommendations _ _ _) as [recs0| |]; [|done..].
  by destruct (Hno recs0).
Qed.

(** The truth value of [recs] cannot be taken. *)
Lemma take_exam_no_truth req sid df rules w recs0 e :
  get_recommendations sid df rules = Ok recs0 →
  truth (fallback recs0 df) = Raise e →
  take_exam req sid df rules w = (Raise e, w).
Proof.
  intros Hrec Ht. unfold take_exam, bind, lift. by rewrite Hrec, Ht.
Qed.

Lemma truth_not_Beyond t : truth t ≠ Beyond.
Proof. by destruct t as [l|[|x [|y l]]]. Qed.

(** Too few candidate rows. *)
Lemma take_exam_too_few req sid df rules w recs0 focused :
  get_recommendations sid df rules = Ok recs0 →
  truth (fallback recs0 df) = Ok focused →
  (length (candidates (fallback recs0 df) df) < min 5 (length df))%nat →
  take_exam req sid df rules w = (Raise ValueError, w).
Proof.
  intros Hrec Ht Hlt. unfold take_exam, bind, lift. rewrite Hrec, Ht.
  unfold sample. by rewrite decide_True.
Qed.

(** The page is shown and the submit button is not pressed. *)
Lemma take_exam_shown req sid df rules w recs0 focused qs w1 :
  get_recommendations sid df rules = Ok recs0 →
  truth (fallback recs0 df) = Ok focused →
  sample (min 5 (length df)) (candidates (fallback recs0 df) df) w
    = (Ok qs, w1) →
  submit_clicked req = false →
  take_exam req sid df rules w
  = (Ok (ExamPage (exam_type_text focused) qs None),
     (set_answers (record_answers req qs (default ∅ (session_answers w1)))
                  w1).2).
Proof.
  intros Hrec Ht Hs Hb. unfold take_exam, bind, lift.
  rewrite Hrec, Ht, Hs. simpl. by rewrite Hb.
Qed.

(** Every way a run of the exam page can end, for a log that is not
    empty. *)
Lemma take_exam_cases req sid df rules w :
  df ≠ [] →
  (∃ r, take_exam req sid df rules w = (r, w) ∧
        (r = Raise ValueError ∨ r = Raise ReError ∨ r = Beyond)) ∨
  (∃ recs0 focused qs w1 sub w',
     get_recommendations sid df rules = Ok recs0 ∧
     truth (fallback recs0 df) = Ok focused ∧
     sample (min 5 (length df)) (candidates (fallback recs0 df) df) w
       = (Ok qs, w1) ∧
     length qs = min 5 (length df) ∧ NoDup qs.*1 ∧
     qs ⊆ candidates (fallback recs0 df) df ∧ only_entropy w w1 ∧
     take_exam req sid df rules w
       = (Ok (ExamPage (exam_type_text focused) qs sub), w') ∧
     session_answers w'
       = Some (record_answers req qs (default ∅ (session_answers w1))) ∧
     fp_growth_rules w' = fp_growth_rules w ∧
     if submit_clicked req
     then ∃ s rows, sub = Some s ∧ processed_data w' = df ++ rows ∧
            Forall2 (synthesized sid
              (record_answers req qs (default ∅ (session_answers w1))))
              qs rows ∧
            session_size s = length qs ∧
            correct_count s = sum_Z (map is_correct rows) ∧
            exam_score s = (Qc_of_Z 100 * Qc_of_Z (correct_count s)
                            / Qc_of_Z (Z.of_nat (length qs)))%Qc
     else sub = None ∧ processed_data w' = processed_data w).
Proof.
  intros Hdf.
  destruct (get_recommendations sid df rules) as [recs0|e|] eqn:Hrec.
  2:{ left. exists (Raise e). split; [|right; left].
      - rewrite take_exam_no_recommendations by (rewrite Hrec; done).
        by rewrite Hrec.
      - f_equal. by eapply get_recommendations_Raise. }
  2:{ left. exists Beyond. split; [|by right; right].
      rewrite take_exam_no_recommendations by (rewrite Hrec; done).
      by rewrite Hrec. }
  destruct (truth (fallback recs0 df)) as [focused|e|] eqn:Ht.
  2:{ left. exists (Raise e). split; [by eapply take_exam_no_truth|].
      left. f_equal. by eapply truth_Raise. }
  2:{ by destruct (truth_not_Beyond (fallback recs0 df)). }
  pose proof (exam_sampling_spec (fallback recs0 df) df w) as Hs.
  destruct (decide _) as [Hlt|Hge].
  { left. exists (Raise ValueError). split; [by eapply take_exam_too_few|].
    by left. }
  destruct Hs as (qs & w1 & Hs & Hlen & _ & _ & Hnd & Hin & Hw1).
  pose proof Hw1 as (Hd1 & Hr1 & Ha1).
  right. destruct (submit_clicked req) eqn:Hb.
  - destruct (submit_exam_spec sid df qs
                (set_answers (record_answers req qs
                                (default ∅ (session_answers w1))) w1).2
                (record_answers req qs (default ∅ (session_answers w1))))
      as (rows & w3 & Hsub & Hrows & Hdata & Hr3 & Ha3).
    { reflexivity. }
    { intros p Hp. by apply record_answers_covers. }
    rewrite percentage_spec in Hsub by (destruct df; simpl in *; [done|lia]).
    simpl in Hsub.
    eexists recs0, focused, qs, w1, _, w3.
    do 7 (split; [done|]). split.
    { unfold take_exam, bind, lift. rewrite Hrec, Ht, Hs. simpl.
      rewrite Hb. rewrite Hsub. reflexivity. }
    split; [by rewrite Ha3|]. split; [by rewrite Hr3|].
    eexists _, rows. split; [done|]. by simpl.
  - eexists recs0, focused, qs, w1, None, _.
    do 7 (split; [done|]).
    split; [by eapply take_exam_shown|]. simpl. by rewrite Hd1, Hr1.
Qed.

(** ** Whole runs *)

(** Every way a run can go, by the two guards and the page. *)
Lemma app_cases req w :
  app req w = (Ok Welcome, w) ∨
  app req w = (Ok InvalidStudent, w) ∨
  (processed_data w ≠ [] ∧
   text_input req ∈ map student_id (processed_data w) ∧
   app req w = render_page req (text_input req) (processed_data w)
                           (fp_growth_rules w) w).
Proof.
  rewrite app_unfold. repeat case_bool_decide; auto.
  right. right. split; [|split; [|done]].
  - intros E. rewrite E in *. set_solver.
  - by destruct (decide (text_input req ∈ map student_id (processed_data w))).
Qed.

Lemma recommendations_page_run sid df rules w :
  recommendations_page sid df rules w
  = (rmap RecommendationsPage (get_recommendations sid df rules), w).
Proof.
  unfold recommendations_page, bind, lift, ret, rmap.
  by destruct (get_recommendations _ _ _).
Qed.

(** A run that shows the exam page went through every step of it. *)
Lemma app_exam_inv req w ty qs sub w' :
  app req w = (Ok (ExamPage ty qs sub), w') →
  processed_data w ≠ [] ∧
  text_input req ∈ map student_id (processed_data w) ∧
  ∃ recs0 focused w1,
    get_recommendations (text_input req) (processed_data w)
                        (fp_growth_rules w) = Ok recs0 ∧
    truth (fallback recs0 (processed_data w)) = Ok focused ∧
    ty = exam_type_text focused ∧
    sample (min 5 (length (processed_data w)))
           (candidates (fallback recs0 (processed_data w)) (processed_data w))
           w = (Ok qs, w1) ∧
    length qs = min 5 (length (processed_data w)) ∧ NoDup qs.*1 ∧
    qs ⊆ candidates (fallback recs0 (processed_data w)) (processed_data w) ∧
    only_entropy w w1 ∧
    session_answers w'
      = Some (record_answers req qs (default ∅ (session_answers w1))) ∧
    if submit_clicked req
    then ∃ s rows, sub = Some s ∧
           processed_data w' = processed_data w ++ rows ∧
           Forall2 (synthesized (text_input req)
             (record_answers req qs (default ∅ (session_answers w1))))
             qs rows ∧
           session_size s = length qs ∧
           correct_count s = sum_Z (map is_correct rows) ∧
           exam_score s = (Qc_of_Z 100 * Qc_of_Z (correct_count s)
                           / Qc_of_Z (Z.of_nat (length qs)))%Qc
    else sub = None ∧ processed_data w' = processed_data w.
Proof.
  destruct (app_cases req w) as [->| [->|(Hdf & Hin & ->)]]; [done..|].
  unfold render_page. destruct (page req) eqn:Hp; try done.
  - intros Hrun. split; [done|]. split; [done|].
    destruct (take_exam_cases req (text_input req) (processed_data w)
                (fp_growth_rules w) w Hdf)
      as [(r & Hr & Hor)|(recs0 & focused & qs0 & w1 & sub0 & w0 & Hrec & Ht &
            Hs & Hlen & Hnd & Hsub & Hw1 & Hfull & Hans & _ & Hcase)].
    { rewrite Hr in Hrun. simplify_eq. by destruct Hor as [?|[?|?]]. }
    rewrite Hfull in Hrun. simplify_eq. by exists recs0, focused, w1.
  - rewrite recommendations_page_run.
    by destruct (get_recommendations _ _ _).
Qed.

Lemma record_answers_other req qs : ∀ answers i,
  i ∉ qs.*1 → record_answers req qs answers !! i = answers !! i.
Proof.
  unfold record_answers.
  induction qs as [|q l IH] using rev_ind; intros a i Hi; [done|].
  rewrite foldl_app. simpl. rewrite fmap_app in Hi.
  apply not_elem_of_app in Hi as [Hl Hq].
  rewrite lookup_insert_ne; [by apply IH|].
  intros <-. apply Hq. simpl. left.
Qed.

(** ** Percentages *)

Lemma Qc_ratio_cancel (c n h : Qc) : n ≠ 0%Qc → (c / n * h * n = c * h)%Qc.
Proof.
  intros Hn. unfold Qcdiv.
  transitivity (c * h * (n * / n))%Qc; [ring|].
  rewrite Qcmult_inv_r by done. ring.
Qed.

Lemma Qc_of_nat_pos n : n ≠ 0%nat → (0 < Qc_of_Z (Z.of_nat n))%Qc.
Proof.
  intros Hn. rewrite <- Z2Qc_inj_0.
  apply (proj1 (Z2Qc_inj_lt 0 (Z.of_nat n))). lia.
Qed.

(** A share of [c] out of [n > 0], as a percentage. *)
Lemma percent_bounds c n :
  n ≠ 0%nat → 0 ≤ c ≤ Z.of_nat n →
  (0 ≤ Qc_of_Z c / Qc_of_Z (Z.of_nat n) * Qc_of_Z 100 ≤ Qc_of_Z 100)%Qc.
Proof.
  intros Hn Hc. pose proof (Qc_of_nat_pos n Hn) as Hpos.
  assert (Qc_of_Z (Z.of_nat n) ≠ 0%Qc) as Hne
    by (by apply not_symmetry, Qclt_not_eq).
  split; apply (Qcmult_lt_0_le_reg_r _ _ _ Hpos);
    rewrite Qc_ratio_cancel by done.
  - rewrite Qcmult_0_l, <- Z2Qc_inj_mul, <- Z2Qc_inj_0.
    apply (proj1 (Z2Qc_inj_le _ _)). lia.
  - rewrite <- !Z2Qc_inj_mul. apply (proj1 (Z2Qc_inj_le _ _)). nia.
Qed.

Lemma percent_full n :
  n ≠ 0%nat →
  (Qc_of_Z 100 * Qc_of_Z (Z.of_nat n) / Qc_of_Z (Z.of_nat n))%Qc = Qc_of_Z 100.
Proof.
  intros Hn. unfold Qcdiv. rewrite <- Qcmult_assoc, Qcmult_inv_r; [ring|].
  by apply not_symmetry, Qclt_not_eq, Qc_of_nat_pos.
Qed.

Lemma percent_none n :
  (Qc_of_Z 100 * Qc_of_Z 0 / Qc_of_Z (Z.of_nat n))%Qc = 0%Qc.
Proof. rewrite Z2Qc_inj_0. unfold Qcdiv. ring. Qed.

Lemma length_filter_ext_in {A} (P Q : A → Prop)
    `{!∀ x, Decision (P x), !∀ x, Decision (Q x)} (l : list A) :
  (∀ x, x ∈ l → P x ↔ Q x) → filter P l = filter Q l.
Proof.
  induction l as [|x l IH]; intros Hext; [done|].
  rewrite !filter_cons.
  assert (filter P l = filter Q l) as ->
    by (apply IH; intros; apply Hext; by right).
  assert (P x ↔ Q x) as Hx by (apply Hext; left).
  destruct (decide (P x)), (decide (Q x)); tauto.
Qed.

(** ** When the exam page can be shown *)

Lemma length_filter_imap {A B} (P : A → Prop) (Q : B * A → Prop)
    `{!∀ x, Decision (P x), !∀ p, Decision (Q p)} (l : list A) :
  (∀ p, Q p ↔ P p.2) →
  ∀ g : nat → A → B * A,
  (∀ i r, (g i r).2 = r) →
  length (filter Q (imap g l)) = length (filter P l).
Proof.
  intros HQ. induction l as [|x l IH]; intros g Hg; [done|].
  rewrite imap_cons, !filter_cons.
  specialize (IH (g ∘ S) (λ i r, Hg (S i) r)).
  pose proof (HQ (g 0%nat x)) as Hx. rewrite Hg in Hx.
  destruct (decide (P x)), (decide (Q (g 0%nat x))); simpl;
    try tauto; by rewrite IH.
Qed.

Lemma length_candidates recs df :
  length (candidates recs df)
  = length (filter (λ r, topic r ∈ topics_of recs) df).
Proof. unfold candidates, iterrows. by apply length_filter_imap. Qed.

Lemma unique_singleton_inv l t :
  unique l = [t] → ∀ x, x ∈ l → x = t.
Proof.
  intros Hu x Hx. apply elem_of_unique in Hx. rewrite Hu in Hx.
  by apply list_elem_of_singleton in Hx.
Qed.

Lemma unique_constant l t :
  l ≠ [] → (∀ x, x ∈ l → x = t) → unique l = [t].
Proof.
  intros Hne Hall. destruct l as [|x l]; [done|].
  assert (x = t) as -> by (apply Hall; left).
  unfold unique. simpl. f_equal.
  assert (∀ k, (∀ y, y ∈ k → y = t) → unique_from [t] k = []) as Haux.
  { induction k as [|y k IH]; intros Hk; [done|]. simpl.
    rewrite decide_True by (rewrite (Hk y); [left|left]).
    apply IH. intros z Hz. apply Hk. by right. }
  apply Haux. intros y Hy. apply Hall. by right.
Qed.

(** ** From one run to the next *)

Lemma app_appends req w :
  ∃ rows, processed_data (app req w).2 = processed_data w ++ rows.
Proof.
  rewrite app_unfold. repeat case_bool_decide;
    try (exists []; simpl; by rewrite app_nil_r).
  apply (keeps_render_page (λ d, ∃ rows, d = processed_data w ++ rows)).
  - intros rows. by exists rows.
  - exists []. by rewrite app_nil_r.
Qed.

(** ** Percentages on the pages *)

Lemma mean_bits l :
  l ≠ [] → Forall (λ x, x = 0 ∨ x = 1) l →
  ∃ q, mean l = Some q ∧
       q = (Qc_of_Z (sum_Z l) / Qc_of_Z (Z.of_nat (length l)))%Qc ∧
       (0 ≤ q * Qc_of_Z 100 ≤ Qc_of_Z 100)%Qc.
Proof.
  intros Hne Hbits. unfold mean. rewrite decide_False by done.
  eexists. split; [done|]. split; [done|].
  apply percent_bounds; [by destruct l|by apply sum_Z_bits].
Qed.

(** ** The table of recent attempts *)

Lemma StronglySorted_sublist {A} (R : relation A) (k l : list A) :
  k `sublist_of` l → StronglySorted R l → StronglySorted R k.
Proof.
  induction 1 as [|x k l Hkl IH|x k l Hkl IH]; intros Hl.
  - constructor.
  - apply StronglySorted_inv in Hl as [Hl Hx]. constructor; [by apply IH|].
    rewrite Forall_forall in Hx |- *. intros y Hy. apply Hx.
    by eapply elem_of_sublist.
  - apply StronglySorted_inv in Hl as [Hl _]. by apply IH.
Qed.

Lemma StronglySorted_reverse {A} (R : relation A) (l : list A) :
  StronglySorted R l → StronglySorted (flip R) (reverse l).
Proof.
  induction 1 as [|x l Hl IH Hx]; [constructor|].
  rewrite reverse_cons. apply StronglySorted_app_2; [|done|repeat constructor].
  intros y z Hy Hz. apply list_elem_of_singleton in Hz as ->.
  rewrite Forall_forall in Hx. apply Hx. by apply elem_of_reverse.
Qed.

Lemma insert_desc_last {A} (p : nat * A) (sorted : list (nat * A)) :
  (∀ q, q ∈ sorted → (p.1 < q.1)%nat) → insert_desc p sorted = sorted ++ [p].
Proof.
  induction sorted as [|q rest IH]; intros Hall; [done|]. simpl.
  rewrite decide_False by (specialize (Hall q ltac:(left)); lia).
  f_equal. apply IH. intros q' Hq'. apply Hall. by right.
Qed.

(** A frame whose labels increase is sorted by reversing it. *)
Lemma sort_index_desc_reverse {A} (frame : list (nat * A)) :
  StronglySorted lt frame.*1 → sort_index_desc frame = reverse frame.
Proof.
  induction frame as [|p frame IH]; intros Hs; [done|].
  simpl in Hs. apply StronglySorted_inv in Hs as [Hs Hp].
  unfold sort_index_desc in *. simpl. rewrite IH by done.
  rewrite reverse_cons. apply insert_desc_last. intros q Hq.
  rewrite Forall_forall in Hp. apply Hp, list_elem_of_fmap.
  exists q. split; [done|]. by apply elem_of_reverse.
Qed.

Lemma StronglySorted_seq j n : StronglySorted lt (seq j n).
Proof.
  revert j. induction n as [|n IH]; intros j; simpl; constructor; [done|].
  apply Forall_forall. intros x Hx. apply elem_of_seq in Hx. lia.
Qed.

Lemma student_frame_labels sid df :
  StronglySorted lt
    (prod_map id view <$> filter (λ p, student_id p.2 = sid) (iterrows df)).*1.
Proof.
  rewrite <- list_fmap_compose.
  apply (StronglySorted_sublist _ _ (iterrows df).*1).
  - apply (fmap_sublist fst), sublist_filter.
  - rewrite iterrows_labels. apply StronglySorted_seq.
Qed.

Lemma recent_attempts_reverse sid df :
  recent_attempts sid df
  = reverse (tail_rows 10 (prod_map id view <$>
               filter (λ p, student_id p.2 = sid) (iterrows df))).
Proof.
  unfold recent_attempts. apply sort_index_desc_reverse.
  apply (StronglySorted_sublist _ _ _ (fmap_sublist fst _ _
           (sublist_drop _ _)) (student_frame_labels sid df)).
Qed.

Lemma length_student_frame sid df :
  length (filter (λ p, student_id p.2 = sid) (iterrows df))
  = length (filter (λ r, student_id r = sid) df).
Proof. unfold iterrows. by apply length_filter_imap. Qed.

(** ** The cards of the recommendations page *)

Lemma sum_Z_bits_lt l :
  Forall (λ x, x = 0 ∨ x = 1) l → 0 ∈ l → sum_Z l < Z.of_nat (length l).
Proof.
  induction 1 as [|x l Hx Hl IH]; intros Hin.
  - by apply not_elem_of_nil in Hin.
  - pose proof (sum_Z_bits l Hl). simpl.
    apply elem_of_cons in Hin as [<-|Hin]; [lia|].
    specialize (IH Hin). destruct Hx as [->| ->]; lia.
Qed.

Lemma percent_lt c n :
  n ≠ 0%nat → c < Z.of_nat n →
  (Qc_of_Z c / Qc_of_Z (Z.of_nat n) * Qc_of_Z 100 < Qc_of_Z 100)%Qc.
Proof.
  intros Hn Hc. pose proof (Qc_of_nat_pos n Hn) as Hpos.
  apply Qcnot_le_lt. intros Hle.
  apply (Qcmult_le_compat_r _ _ (Qc_of_Z (Z.of_nat n))) in Hle;
    [|by apply Qclt_le_weak].
  rewrite Qc_ratio_cancel in Hle by (by apply not_symmetry, Qclt_not_eq).
  rewrite <- !Z2Qc_inj_mul in Hle. apply Z2Qc_inj_le in Hle. nia.
Qed.

(** ** The quick insights of the analytics page *)

Lemma ascii_compare_N a b :
  Ascii.compare a b = (N_of_ascii a ?= N_of_ascii b)%N.
Proof. reflexivity. Qed.

Lemma ascii_compare_refl a : Ascii.compare a a = Eq.
Proof. rewrite ascii_compare_N. apply N.compare_refl. Qed.

Lemma ascii_compare_lt_trans a b c :
  Ascii.compare a b = Lt → Ascii.compare b c = Lt → Ascii.compare a c = Lt.
Proof.
  rewrite !ascii_compare_N, !N.compare_lt_iff. lia.
Qed.

Lemma string_compare_le_trans s1 : ∀ s2 s3,
  String.compare s1 s2 ≠ Gt → String.compare s2 s3 ≠ Gt →
  String.compare s1 s3 ≠ Gt.
Proof.
  induction s1 as [|c1 s1 IH]; intros [|c2 s2] [|c3 s3]; simpl; try done.
  destruct (Ascii.compare c1 c2) eqn:E12; [| |done];
    destruct (Ascii.compare c2 c3) eqn:E23; try done.
  - apply Ascii.compare_eq_iff in E12 as ->.
    apply Ascii.compare_eq_iff in E23 as ->.
    rewrite ascii_compare_refl. apply IH.
  - apply Ascii.compare_eq_iff in E12 as ->. by rewrite E23.
  - apply Ascii.compare_eq_iff in E23 as ->. by rewrite E12.
  - by rewrite (ascii_compare_lt_trans _ _ _ E12 E23).
Qed.

#[local] Instance str_le_trans : Transitive str_le.
Proof.
  intros a b c. unfold str_le, String.leb. intros H1 H2.
  pose proof (string_compare_le_trans a b c) as H.
  destruct (String.compare a b), (String.compare b c); try done;
    destruct (String.compare a c); try done; by destruct H.
Qed.

#[local] Instance str_le_total : Total str_le.
Proof. intros a b. apply String.leb_total. Qed.

#[local] Instance str_le_antisym : AntiSymm (=) str_le.
Proof. intros a b. apply String.leb_antisym. Qed.

Lemma str_le_refl a : str_le a a.
Proof. by destruct (total str_le a a). Qed.

(** The first smallest value: everything before it is larger, nothing
    after it is smaller. *)
Lemma argmin_spec s : ∀ best,
  ∃ l1 v l2, best :: s = l1 ++ (argmin best s, v) :: l2 ∧
             (∀ p, p ∈ l1 → (v < p.2)%Qc) ∧ (∀ p, p ∈ l2 → (v ≤ p.2)%Qc).
Proof.
  induction s as [|p s IH]; intros best; simpl.
  - exists [], best.2, []. destruct best. set_solver.
  - destruct (decide (p.2 < best.2)%Qc) as [Hlt|Hge].
    + destruct (IH p) as (l1 & v & l2 & Heq & H1 & H2).
      exists (best :: l1), v, l2. rewrite Heq. split; [done|]. split; [|done].
      intros q [->|Hq]%elem_of_cons; [|by apply H1].
      destruct l1 as [|p' l1]; simpl in Heq; injection Heq as Hp Hs.
      * rewrite Hp in Hlt. exact Hlt.
      * subst p'. apply Qclt_trans with p.2; [|done]. apply H1. left.
    + apply Qcnot_lt_le in Hge.
      destruct (IH best) as (l1 & v & l2 & Heq & H1 & H2).
      destruct l1 as [|b l1]; simpl in Heq; injection Heq as Hb Hs.
      * subst s. exists [], v, (p :: l2). split; [by rewrite <- Hb|].
        split; [set_solver|]. rewrite Hb in Hge. simpl in Hge.
        intros q [->|Hq]%elem_of_cons; [done|by apply H2].
      * subst b. exists (best :: p :: l1), v, l2.
        split; [simpl; by do 2 f_equal|]. split; [|done].
        intros q [->|[->|Hq]%elem_of_cons]%elem_of_cons.
        -- apply H1. left.
        -- apply Qclt_le_trans with best.2; [apply H1; left|done].
        -- apply H1. by right.
Qed.

Lemma argmax_spec s : ∀ best,
  ∃ l1 v l2, best :: s = l1 ++ (argmax best s, v) :: l2 ∧
             (∀ p, p ∈ l1 → (p.2 < v)%Qc) ∧ (∀ p, p ∈ l2 → (p.2 ≤ v)%Qc).
Proof.
  induction s as [|p s IH]; intros best; simpl.
  - exists [], best.2, []. destruct best. set_solver.
  - destruct (decide (best.2 < p.2)%Qc) as [Hlt|Hge].
    + destruct (IH p) as (l1 & v & l2 & Heq & H1 & H2).
      exists (best :: l1), v, l2. rewrite Heq. split; [done|]. split; [|done].
      intros q [->|Hq]%elem_of_cons; [|by apply H1].
      destruct l1 as [|p' l1]; simpl in Heq; injection Heq as Hp Hs.
      * rewrite Hp in Hlt. exact Hlt.
      * subst p'. apply Qclt_trans with p.2; [done|]. apply H1. left.
    + apply Qcnot_lt_le in Hge.
      destruct (IH best) as (l1 & v & l2 & Heq & H1 & H2).
      destruct l1 as [|b l1]; simpl in Heq; injection Heq as Hb Hs.
      * subst s. exists [], v, (p :: l2). split; [by rewrite <- Hb|].
        split; [set_solver|]. rewrite Hb in Hge. simpl in Hge.
        intros q [->|Hq]%elem_of_cons; [done|by apply H2].
      * subst b. exists (best :: p :: l1), v, l2.
        split; [simpl; by do 2 f_equal|]. split; [|done].
        intros q [->|[->|Hq]%elem_of_cons]%elem_of_cons.
        -- apply H1. left.
        -- apply Qcle_lt_trans with best.2; [done|apply H1; left].
        -- apply H1. by right.
Qed.

(** The keys of the grouped series: every topic of the log once, in
    increasing order. *)
Lemma groupby_keys df :
  ∃ keys, groupby_topic_mean df = (λ t, (t, topic_mean df t)) <$> keys ∧
          StronglySorted str_le keys ∧
          ∀ t, t ∈ keys ↔ t ∈ map topic df.
Proof.
  exists (merge_sort str_le (unique (map topic df))). split; [done|].
  split; [apply StronglySorted_merge_sort; apply _|].
  intros t. by rewrite merge_sort_Permutation, elem_of_unique.
Qed.

(** Where a key sits in the grouped series decides how it compares with
    the others. *)
Lemma grouped_split df keys l1 k v l2 :
  (λ t, (t, topic_mean df t)) <$> keys = l1 ++ (k, v) :: l2 →
  StronglySorted str_le keys →
  v = topic_mean df k ∧ k ∈ keys ∧
  ∀ t, t ∈ keys →
       (t ≠ k ∧ (t, topic_mean df t) ∈ l1) ∨
       (str_le k t ∧ (t = k ∨ (t, topic_mean df t) ∈ l2)).
Proof.
  intros Heq Hsorted.
  apply fmap_app_inv in Heq as (k1 & k2' & -> & Hk2 & ->).
  symmetry in Hk2. apply fmap_cons_inv in Hk2 as (k' & k2 & [= -> ->] & -> & ->).
  split; [done|]. split; [set_solver|].
  apply StronglySorted_app in Hsorted as (Hcross & _ & Hs2).
  apply StronglySorted_inv in Hs2 as [_ Hk2]. rewrite Forall_forall in Hk2.
  intros t Ht. destruct (decide (t = k')) as [->|Hne].
  { right. split; [apply str_le_refl|by left]. }
  apply elem_of_app in Ht as [Ht|[->|Ht]%elem_of_cons]; [| done |].
  - left. split; [done|]. apply list_elem_of_fmap. eauto.
  - right. split; [by apply Hk2|]. right. apply list_elem_of_fmap. eauto.
Qed.

(** ** Further properties of the pages *)

Ltac each_row H :=
  repeat (apply elem_of_cons in H as [->|H]); [..|by apply not_elem_of_nil in H].

(** X1.  When the resolver answers, a topic is in its answer exactly
    when the student has an incorrect attempt on it and some rule is
    kept by the rule test of that topic. *)
Theorem recommended_iff_weak_and_matched sid df rules recs :
  get_recommendations sid df rules = Ok recs →
  ∀ t, t ∈ recs ↔ has_incorrect_attempt sid t df ∧ rule_matches rules t.
Proof. apply get_recommendations_exact. Qed.

Lemma recommended_iff_weak_and_matched_witness :
  "Algebra" ∈ ["Algebra"]
  ↔ has_incorrect_attempt "S12" "Algebra" df_spec_example ∧
    rule_matches rules_algebra "Algebra".
Proof.
  apply (recommended_iff_weak_and_matched
           "S12" df_spec_example rules_algebra ["Algebra"]).
  reflexivity.
Defined.

(** X2.  The resolver answers exactly when the pattern of every weak
    topic of the student compiles: one weak topic with, say, an unclosed
    parenthesis makes the whole call fail, whatever the rules. *)
Theorem resolver_answers_iff_weak_topics_compile sid df rules :
  (∃ recs, get_recommendations sid df rules = Ok recs)
  ↔ ∀ t, has_incorrect_attempt sid t df → compiles t.
Proof.
  rewrite get_recommendations_Ok_iff, Forall_forall.
  by setoid_rewrite elem_of_weak_topics.
Qed.

(** X3.  For a student whose weak topics have no special character the
    resolver always answers, and recommends exactly the weak topics that
    some rule names literally. *)
Theorem plain_topics_recommended_iff_mentioned sid df rules :
  Forall (λ t, plain t = true) (weak_topics sid df) →
  ∃ recs, get_recommendations sid df rules = Ok recs ∧
          ∀ t, t ∈ recs ↔ has_incorrect_attempt sid t df ∧ mentioned rules t.
Proof.
  intros Hp. unfold get_recommendations.
  destruct (recommend_loop_plain (weak_topics sid df) rules ∅ Hp)
    as (out & -> & Hout).
  eexists. split; [done|]. intros t.
  rewrite elem_of_elements, Hout, elem_of_weak_topics. set_solver.
Qed.

Lemma plain_topics_recommended_iff_mentioned_witness :
  ∃ recs, get_recommendations "S12" df_spec_example rules_algebra = Ok recs ∧
          ∀ t, t ∈ recs ↔ has_incorrect_attempt "S12" t df_spec_example ∧
                          mentioned rules_algebra t.
Proof.
  apply (plain_topics_recommended_iff_mentioned
           "S12" df_spec_example rules_algebra).
  vm_compute. repeat constructor.
Defined.

(** X4.  On a topic without special characters the rule test is the
    literal, case-sensitive substring test of ["Topic_" + t]. *)
Theorem rule_test_literal_on_plain_topics t rules :
  plain t = true →
  str_contains (map antecedents rules) ("Topic_" +:+ t)
  = Ok (map (λ rule, literal_substring ("Topic_" +:+ t) (antecedents rule))
            rules).
Proof.
  intros Hp. rewrite str_contains_plain by (by rewrite plain_pattern).
  by rewrite map_map.
Qed.

Lemma rule_test_literal_on_plain_topics_witness :
  str_contains (map antecedents rules_algebra) ("Topic_" +:+ "Algebra")
  = Ok (map (λ rule, literal_substring ("Topic_" +:+ "Algebra")
                                       (antecedents rule)) rules_algebra).
Proof.
  apply (rule_test_literal_on_plain_topics "Algebra" rules_algebra).
  reflexivity.
Defined.

(** X5.  The resolver reads only the rows of the student it is asked
    about: the attempts of the other students do not change its result. *)
Theorem resolver_reads_own_rows_only sid df rules :
  get_recommendations sid (filter (λ r, student_id r = sid) df) rules
  = get_recommendations sid df rules.
Proof. unfold get_recommendations. by rewrite weak_topics_own_rows. Qed.

(** X6.  A run never takes a recommendation away: whatever the request,
    every topic recommended to a student before the run is still
    recommended after it (correct answers do not clear a topic). *)
Theorem recommendations_never_shrink req w sid recs' :
  get_recommendations sid (processed_data (app req w).2) (fp_growth_rules w)
    = Ok recs' →
  ∃ recs,
    get_recommendations sid (processed_data w) (fp_growth_rules w) = Ok recs ∧
    recs ⊆ recs'.
Proof.
  destruct (app_appends req w) as [rows ->]. apply get_recommendations_app.
Qed.

Lemma recommendations_never_shrink_witness :
  ∃ recs,
    get_recommendations "S12" (processed_data exam_world)
                        (fp_growth_rules exam_world) = Ok recs ∧
    recs ⊆ ["Algebra"].
Proof.
  apply (recommendations_never_shrink exam_request exam_world "S12"
                                      ["Algebra"]).
  vm_compute. reflexivity.
Defined.

(** X7.  After a submitted exam, the topic of a question answered
    wrongly is recommended to the student on the next call, as soon as a
    rule is kept by the rule test of that topic. *)
Theorem wrong_answer_is_recommended_next req w ty qs s w' p recs' :
  app req w = (Ok (ExamPage ty qs (Some s)), w') →
  p ∈ qs →
  option_text (radio req p.1) p.2 ≠ correct_answer p.2 →
  rule_matches (fp_growth_rules w') (topic p.2) →
  get_recommendations (text_input req) (processed_data w')
                      (fp_growth_rules w') = Ok recs' →
  topic p.2 ∈ recs'.
Proof.
  intros Hrun Hp Hwrong Hm Hrec'.
  apply (get_recommendations_exact _ _ _ _ Hrec'). split; [|done].
  apply app_exam_inv in Hrun
    as (_ & _ & recs0 & focused & w1 & _ & _ & _ & _ & _ & Hnd & _
        & _ & _ & Hcase).
  destruct (submit_clicked req); [|by destruct Hcase].
  destruct Hcase as (s' & rows & _ & Hdata & Hrows & _).
  apply list_elem_of_lookup in Hp as [k Hk].
  destruct (Forall2_lookup_l _ _ _ _ _ Hrows Hk) as (nr & Hnr & Hs).
  destruct Hs as (a & Ha & Hsid & _ & Htopic & _ & _ & _ & _ & Hc & _).
  rewrite (record_answers_selected req qs _ p Hnd) in Ha
    by (by eapply list_elem_of_lookup_2).
  injection Ha as <-. rewrite decide_False in Hc by done.
  exists nr. rewrite Hdata. split; [|done].
  apply elem_of_app. right. by eapply list_elem_of_lookup_2.
Qed.

Lemma wrong_answer_is_recommended_next_witness :
  topic (attempt "S13" "Q1" "Algebra" "4" 1) ∈ ["Algebra"].
Proof.
  eapply (wrong_answer_is_recommended_next exam_request exam_world
            _ _ _ _ (1%nat, attempt "S13" "Q1" "Algebra" "4" 1) ["Algebra"]).
  - vm_compute. reflexivity.
  - left.
  - discriminate.
  - eexists _, _. split; [vm_compute; reflexivity|].
    split; [left|vm_compute; reflexivity].
  - vm_compute. reflexivity.
Defined.

(** X8.  For a logged-in student the exam page is shown exactly when
    the resolver answers and either its answer is empty and the log has
    a single topic, or its answer is not empty and the log holds at
    least [min(5, len(df))] rows on the recommended topics. *)
Theorem exam_page_shown_iff req w :
  text_input req ≠ "" →
  text_input req ∈ map student_id (processed_data w) →
  page req = TakeExam →
  (∃ ty qs sub w', app req w = (Ok (ExamPage ty qs sub), w'))
  ↔ ∃ recs0,
      get_recommendations (text_input req) (processed_data w)
                          (fp_growth_rules w) = Ok recs0 ∧
      if decide (recs0 = [])
      then ∃ t, ∀ r, r ∈ processed_data w → topic r = t
      else (min 5 (length (processed_data w))
            ≤ length (filter (λ r, topic r ∈ recs0) (processed_data w)))%nat.
Proof.
  intros Hne Hin Hpage. split.
  - intros (ty & qs & sub & w' & Hrun).
    apply app_exam_inv in Hrun
      as (Hdf & _ & recs0 & focused & w1 & Hrec & Ht & _ & Hs & _).
    exists recs0. split; [done|]. destruct (decide (recs0 = [])) as [->|Hr].
    + unfold fallback in Ht. simpl in Ht.
      destruct (unique (map topic (processed_data w))) as [|t [|t' l]] eqn:Hu;
        simpl in Ht; [| |done].
      * destruct (processed_data w) as [|r df]; [done|].
        assert (topic r ∈ unique (map topic (r :: df))) as Hr
          by (apply elem_of_unique; left).
        rewrite Hu in Hr. by apply not_elem_of_nil in Hr.
      * exists t. intros r Hr. apply (unique_singleton_inv _ _ Hu).
        apply list_elem_of_fmap. eauto.
    + pose proof (exam_sampling_spec (fallback recs0 (processed_data w))
                    (processed_data w) w) as Hspec.
      destruct (decide _) as [Hlt|Hge]; [congruence|].
      assert (fallback recs0 (processed_data w) = PyList recs0) as E
        by (unfold fallback; by rewrite bool_decide_eq_false_2).
      rewrite E, length_candidates in Hge. cbn [topics_of] in Hge. lia.
  - intros (recs0 & Hrec & Hcond).
    assert (processed_data w ≠ []) as Hdf.
    { intros E. rewrite E in Hin. by apply not_elem_of_nil in Hin. }
    assert (∃ focused, truth (fallback recs0 (processed_data w)) = Ok focused
            ∧ ¬ (length (candidates (fallback recs0 (processed_data w))
                           (processed_data w))
                 < min 5 (length (processed_data w)))%nat)
      as (focused & Ht & Hge).
    { destruct (decide (recs0 = [])) as [->|Hr].
      - destruct Hcond as [t Hall].
        assert (fallback [] (processed_data w) = NdArray [t]) as E.
        { unfold fallback. simpl. rewrite (unique_constant _ t); [done|..].
          - by destruct (processed_data w).
          - intros x (r & -> & Hr)%list_elem_of_fmap. by apply Hall. }
        rewrite candidates_fallback, E. cbn [truth].
        eexists. split; [done|]. unfold iterrows. rewrite length_imap. lia.
      - assert (fallback recs0 (processed_data w) = PyList recs0) as E
          by (unfold fallback; by rewrite bool_decide_eq_false_2).
        rewrite E, length_candidates. cbn [topics_of truth].
        rewrite bool_decide_eq_true_2 by done.
        eexists. split; [done|]. lia. }
    pose proof (exam_sampling_spec (fallback recs0 (processed_data w))
                  (processed_data w) w) as Hspec.
    rewrite decide_False in Hspec by done.
    destruct Hspec as (qs & w1 & Hs & _).
    rewrite app_unfold, bool_decide_eq_false_2 by done.
    rewrite bool_decide_eq_false_2 by (by intros H; apply H).
    unfold render_page. rewrite Hpage.
    destruct (submit_clicked req) eqn:Hb.
    + destruct (take_exam_submit req _ _ _ w _ _ _ _ Hrec Ht Hs Hb Hdf)
        as (s & rows & w2 & Hrun & _).
      rewrite Hrun. eauto.
    + rewrite (take_exam_shown req _ _ _ w _ _ _ _ Hrec Ht Hs Hb). eauto.
Qed.

Lemma exam_page_shown_iff_witness :
  (∃ ty qs sub w', app exam_request exam_world
                   = (Ok (ExamPage ty qs sub), w'))
  ↔ ∃ recs0,
      get_recommendations (text_input exam_request)
        (processed_data exam_world) (fp_growth_rules exam_world) = Ok recs0 ∧
      if decide (recs0 = [])
      then ∃ t, ∀ r, r ∈ processed_data exam_world → topic r = t
      else (min 5 (length (processed_data exam_world))
            ≤ length (filter (λ r, topic r ∈ recs0)
                             (processed_data exam_world)))%nat.
Proof.
  apply (exam_page_shown_iff exam_request exam_world).
  - discriminate.
  - vm_compute. left.
  - reflexivity.
Defined.

(** X9.  An exam that is shown has [min(5, len(df))] questions, at
    least one, with pairwise distinct labels, each a row of the log;
    when the recommendation is not empty every question is on a
    recommended topic, one the student has answered wrongly before. *)
Theorem exam_questions_shown req w ty qs sub w' :
  app req w = (Ok (ExamPage ty qs sub), w') →
  (1 ≤ length qs)%nat ∧
  length qs = min 5 (length (processed_data w)) ∧
  NoDup qs.*1 ∧
  (∀ p, p ∈ qs → processed_data w !! p.1 = Some p.2) ∧
  ∀ recs0,
    get_recommendations (text_input req) (processed_data w)
                        (fp_growth_rules w) = Ok recs0 →
    recs0 ≠ [] →
    ∀ p, p ∈ qs → topic p.2 ∈ recs0 ∧
                  has_incorrect_attempt (text_input req) (topic p.2)
                                        (processed_data w).
Proof.
  intros Hrun. apply app_exam_inv in Hrun
    as (Hdf & _ & recs0 & focused & w1 & Hrec & _ & _ & _ & Hlen & Hnd
        & Hsub & _).
  split; [destruct (processed_data w); simpl in *; [done|lia]|].
  split; [done|]. split; [done|]. split.
  - intros [i r] Hp. apply Hsub in Hp. unfold candidates in Hp.
    apply list_elem_of_filter in Hp as [_ Hp]. by apply elem_of_iterrows.
  - intros recs Hrec' Hne p Hp. rewrite Hrec in Hrec'. simplify_eq.
    apply Hsub in Hp. rewrite candidates_recommended in Hp by done.
    apply list_elem_of_filter in Hp as [Ht _]. split; [done|].
    by apply (get_recommendations_exact _ _ _ _ Hrec).
Qed.

Lemma exam_questions_shown_witness :
  ∃ qs,
    (1 ≤ length qs)%nat ∧
    length qs = min 5 (length (processed_data exam_world)) ∧
    NoDup qs.*1 ∧
    (∀ p, p ∈ qs → processed_data exam_world !! p.1 = Some p.2) ∧
    ∀ recs0,
      get_recommendations (text_input exam_request)
        (processed_data exam_world) (fp_growth_rules exam_world) = Ok recs0 →
      recs0 ≠ [] →
      ∀ p, p ∈ qs → topic p.2 ∈ recs0 ∧
                    has_incorrect_attempt (text_input exam_request)
                      (topic p.2) (processed_data exam_world).
Proof.
  eexists. eapply (exam_questions_shown exam_request exam_world).
  vm_compute. reflexivity.
Defined.

(** X10.  The exam type printed is always "Focused on weak areas",
    also after the fallback to all topics; "General assessment" needs a
    log whose topics are all the empty string. *)
Theorem exam_type_is_focused req w ty qs sub w' :
  app req w = (Ok (ExamPage ty qs sub), w') →
  ty = "Focused on weak areas" ∨
  (ty = "General assessment" ∧ ∀ r, r ∈ processed_data w → topic r = "").
Proof.
  intros Hrun. apply app_exam_inv in Hrun
    as (Hdf & _ & recs0 & focused & w1 & _ & Ht & -> & _).
  destruct focused; [by left|]. right. split; [done|].
  unfold fallback in Ht. case_bool_decide as Hrecs.
  - intros r Hr.
    assert (topic r ∈ unique (map topic (processed_data w))) as Hu
      by (apply elem_of_unique, list_elem_of_fmap; eauto).
    destruct (unique (map topic (processed_data w))) as [|x [|y l]];
      simpl in Ht; simplify_eq.
    + by apply not_elem_of_nil in Hu.
    + apply list_elem_of_singleton in Hu as ->.
      case_bool_decide as Hx; [done|].
      by destruct (decide (x = "")) as [->|?].
  - simpl in Ht. by rewrite bool_decide_eq_true_2 in Ht.
Qed.

Lemma exam_type_is_focused_witness :
  ∃ ty, ty = "Focused on weak areas" ∨
        (ty = "General assessment" ∧
         ∀ r, r ∈ processed_data exam_world → topic r = "").
Proof.
  eexists. eapply (exam_type_is_focused exam_request exam_world).
  vm_compute. reflexivity.
Defined.

(** X11.  After the exam page is shown, the session holds for every
    question on screen the option selected in its radio button, and the
    entries of earlier runs for other labels are still there. *)
Theorem answers_recorded req w ty qs sub w' :
  app req w = (Ok (ExamPage ty qs sub), w') →
  ∃ answers,
    session_answers w' = Some answers ∧
    (∀ p, p ∈ qs →
          answers !! p.1 = Some (option_text (radio req p.1) p.2)) ∧
    (∀ i, i ∉ qs.*1 →
          answers !! i = default ∅ (session_answers w) !! i).
Proof.
  intros Hrun. apply app_exam_inv in Hrun
    as (_ & _ & recs0 & focused & w1 & _ & _ & _ & _ & _ & Hnd & _
        & Hw1 & Hans & _).
  destruct Hw1 as (_ & _ & Ha1). eexists. split; [done|]. split.
  - intros p Hp. by apply record_answers_selected.
  - intros i Hi. rewrite Ha1. by apply record_answers_other.
Qed.

Lemma answers_recorded_witness :
  ∃ qs w' answers,
    session_answers w' = Some answers ∧
    (∀ p, p ∈ qs →
          answers !! p.1 = Some (option_text (radio exam_request p.1) p.2)) ∧
    (∀ i, i ∉ qs.*1 →
          answers !! i = default ∅ (session_answers exam_world) !! i).
Proof.
  eexists _, _. eapply (answers_recorded exam_request exam_world).
  vm_compute. reflexivity.
Defined.

(** X12.  The reported count is the number of questions whose selected
    option is the text of the row's [correct_answer]; choosing the
    fourth option everywhere gives 100, and no matching option gives 0. *)
Theorem score_counts_selected_options req w ty qs s w' :
  app req w = (Ok (ExamPage ty qs (Some s)), w') →
  session_size s = length qs ∧
  correct_count s
  = Z.of_nat (length (filter
      (λ p, option_text (radio req p.1) p.2 = correct_answer p.2) qs)) ∧
  ((∀ p, p ∈ qs → radio req p.1 = OptionCorrect) →
   exam_score s = Qc_of_Z 100) ∧
  ((∀ p, p ∈ qs → option_text (radio req p.1) p.2 ≠ correct_answer p.2) →
   exam_score s = 0%Qc).
Proof.
  intros Hrun. apply app_exam_inv in Hrun
    as (Hdf & _ & recs0 & focused & w1 & _ & _ & _ & _ & Hlen & Hnd & _
        & _ & _ & Hcase).
  destruct (submit_clicked req); [|by destruct Hcase].
  destruct Hcase as (s' & rows & [= <-] & _ & Hrows & Hsize & Hcount & Hscore).
  assert (length qs ≠ 0%nat) as Hn
    by (destruct (processed_data w); simpl in *; [done|lia]).
  assert (correct_count s = Z.of_nat (length (filter
      (λ p, option_text (radio req p.1) p.2 = correct_answer p.2) qs)))
    as Hc.
  { rewrite Hcount, (count_matches _ _ _ _ Hrows). do 2 f_equal.
    apply length_filter_ext_in. intros p Hp.
    rewrite (record_answers_selected req qs _ p Hnd Hp).
    split; [by intros [= ?]|by intros ->]. }
  split; [done|]. split; [done|]. split.
  - intros Hall. rewrite Hscore, Hc.
    rewrite (filter_all _ qs); [by apply percent_full|].
    intros p Hp. by rewrite (Hall p Hp).
  - intros Hnone. rewrite Hscore, Hc.
    assert (filter (λ p, option_text (radio req p.1) p.2 = correct_answer p.2)
                   qs = []) as ->; [|apply percent_none].
    destruct (filter _ qs) as [|p l] eqn:E; [done|].
    assert (p ∈ filter (λ p, option_text (radio req p.1) p.2
                             = correct_answer p.2) qs) as Hp
      by (rewrite E; left).
    apply list_elem_of_filter in Hp as [Heq Hp]. by destruct (Hnone p Hp).
Qed.

Lemma score_counts_selected_options_witness :
  ∃ qs s,
    session_size s = length qs ∧
    correct_count s
    = Z.of_nat (length (filter
        (λ p, option_text (radio exam_request p.1) p.2 = correct_answer p.2)
        qs)) ∧
    ((∀ p, p ∈ qs → radio exam_request p.1 = OptionCorrect) →
     exam_score s = Qc_of_Z 100) ∧
    ((∀ p, p ∈ qs →
           option_text (radio exam_request p.1) p.2 ≠ correct_answer p.2) →
     exam_score s = 0%Qc).
Proof.
  eexists _, _. eapply (score_counts_selected_options exam_request exam_world).
  vm_compute. reflexivity.
Defined.

(** X13.  A submitted exam appends one row per question, in the order
    shown, each with the logged-in student, the fields of the question
    and the selected option, marked 1 exactly when that option is the
    correct answer and 0 otherwise. *)
Theorem submitted_rows_carry_selected_options req w ty qs s w' :
  app req w = (Ok (ExamPage ty qs (Some s)), w') →
  ∃ rows,
    processed_data w' = processed_data w ++ rows ∧
    length rows = length qs ∧
    ∀ k p, qs !! k = Some p →
      ∃ nr, rows !! k = Some nr ∧
            student_id nr = text_input req ∧
            question_id nr = question_id p.2 ∧
            topic nr = topic p.2 ∧
            difficulty nr = difficulty p.2 ∧
            question_type nr = question_type p.2 ∧
            correct_answer nr = correct_answer p.2 ∧
            student_answer nr = option_text (radio req p.1) p.2 ∧
            (is_correct nr = 1 ↔ student_answer nr = correct_answer nr) ∧
            (is_correct nr = 0 ↔ student_answer nr ≠ correct_answer nr).
Proof.
  intros Hrun. apply app_exam_inv in Hrun
    as (_ & _ & recs0 & focused & w1 & _ & _ & _ & _ & _ & Hnd & _
        & _ & _ & Hcase).
  destruct (submit_clicked req); [|by destruct Hcase].
  destruct Hcase as (s' & rows & _ & Hdata & Hrows & _).
  exists rows. split; [done|].
  split; [symmetry; by eapply Forall2_length|]. intros k p Hk.
  destruct (Forall2_lookup_l _ _ _ _ _ Hrows Hk) as (nr & Hnr & Hs).
  exists nr. split; [done|].
  destruct Hs as (a & Ha & ? & ? & ? & ? & ? & Hsa & Hca & Hc & _).
  rewrite (record_answers_selected req qs _ p Hnd) in Ha
    by (by eapply list_elem_of_lookup_2).
  injection Ha as <-. rewrite Hc, Hca, Hsa.
  repeat split; try done; case_decide; try done; try lia.
Qed.

Lemma submitted_rows_carry_selected_options_witness :
  ∃ qs w' rows,
    processed_data w' = processed_data exam_world ++ rows ∧
    length rows = length qs ∧
    ∀ k p, qs !! k = Some p →
      ∃ nr, rows !! k = Some nr ∧
            student_id nr = text_input exam_request ∧
            question_id nr = question_id p.2 ∧
            topic nr = topic p.2 ∧
            difficulty nr = difficulty p.2 ∧
            question_type nr = question_type p.2 ∧
            correct_answer nr = correct_answer p.2 ∧
            student_answer nr = option_text (radio exam_request p.1) p.2 ∧
            (is_correct nr = 1 ↔ student_answer nr = correct_answer nr) ∧
            (is_correct nr = 0 ↔ student_answer nr ≠ correct_answer nr).
Proof.
  eexists _, _.
  eapply (submitted_rows_carry_selected_options exam_request exam_world).
  vm_compute. reflexivity.
Defined.

(** X14.  A run can only end with [ValueError] or [re.error], and a
    run that ends with an exception has changed nothing: no file is
    written, no answer recorded, no random number drawn. *)
Theorem failed_run_changes_nothing req w e :
  (app req w).1 = Raise e →
  (e = ValueError ∨ e = ReError) ∧ (app req w).2 = w.
Proof.
  destruct (app_cases req w) as [->| [->|(Hdf & _ & ->)]]; [done..|].
  unfold render_page. destruct (page req); try done.
  - destruct (take_exam_cases req (text_input req) (processed_data w)
                (fp_growth_rules w) w Hdf)
      as [(r & -> & Hr)|(?&?&?&?&?&?&_&_&_&_&_&_&_&->&_)]; [|done].
    simpl. intros ->. split; [|done].
    destruct Hr as [[= ->]|[[= ->]|?]]; auto. done.
  - rewrite recommendations_page_run. simpl.
    destruct (get_recommendations _ _ _) as [?|e'|] eqn:Hrec; try done.
    simpl. intros [= <-]. split; [|done]. right.
    by eapply get_recommendations_Raise.
Qed.

Lemma failed_run_changes_nothing_witness :
  (ValueError = ValueError ∨ ValueError = ReError) ∧
  (app (request "S12" TakeExam OptionCorrect false)
       (world df_one_candidate rules_algebra [])).2
  = world df_one_candidate rules_algebra [].
Proof.
  apply (failed_run_changes_nothing
           (request "S12" TakeExam OptionCorrect false)
           (world df_one_candidate rules_algebra []) ValueError).
  reflexivity.
Defined.

(** X15.  No run changes the rule table. *)
Theorem rule_table_never_written req w :
  fp_growth_rules (app req w).2 = fp_growth_rules w.
Proof.
  destruct (app_cases req w) as [->| [->|(Hdf & _ & ->)]]; [done..|].
  unfold render_page. destruct (page req); try done.
  - destruct (take_exam_cases req (text_input req) (processed_data w)
                (fp_growth_rules w) w Hdf)
      as [(r & -> & Hr)|(?&?&?&?&?&?&_&_&_&_&_&_&_&->&_&?&_)]; done.
  - by rewrite recommendations_page_run.
Qed.

(** X16.  The dashboard, analytics and recommendations pages leave the
    whole state as it was, and without the submit button the attempt
    log is not written. *)
Theorem only_submit_writes req w :
  (page req ≠ TakeExam → (app req w).2 = w) ∧
  (submit_clicked req = false →
   processed_data (app req w).2 = processed_data w).
Proof.
  destruct (app_cases req w) as [->| [->|(Hdf & _ & ->)]]; [done..|].
  unfold render_page. split.
  - intros Hp. destruct (page req); try done.
    by rewrite recommendations_page_run.
  - intros Hb. destruct (page req); try done.
    + destruct (take_exam_cases req (text_input req) (processed_data w)
                  (fp_growth_rules w) w Hdf)
        as [(r & -> & Hr)|(?&?&?&?&?&?&_&_&_&_&_&_&_&->&_&_&H)]; [done|].
      rewrite Hb in H. by destruct H.
    + by rewrite recommendations_page_run.
Qed.

(** X17.  For a student of the log, with [is_correct] 0 or 1 in every
    row, the dashboard counts at least one attempt and shows an accuracy
    and an average time that are defined, the accuracy between 0 and
    100; so is the overall accuracy of the analytics page. *)
Theorem page_percentages_in_range sid df :
  sid ∈ map student_id df →
  (∀ r, r ∈ df → is_correct r = 0 ∨ is_correct r = 1) →
  (∃ total acc n avg,
     dashboard sid df = DashboardPage total (Some acc) n (Some avg) ∧
     n = length (filter (λ r, student_id r = sid) df) ∧ (1 ≤ n)%nat ∧
     (0 ≤ acc ≤ Qc_of_Z 100)%Qc) ∧
  (∃ acc, analytics df = AnalyticsPage (Some acc) ∧
          (0 ≤ acc ≤ Qc_of_Z 100)%Qc).
Proof.
  intros Hin Hbits.
  assert (∀ l : DataFrame, (∀ r, r ∈ l → r ∈ df) →
            Forall (λ x, x = 0 ∨ x = 1) (map is_correct l)) as Hb.
  { intros l Hl. apply Forall_fmap, Forall_forall. intros r Hr.
    apply Hbits, Hl, Hr. }
  apply list_elem_of_fmap in Hin as (r0 & -> & Hr0).
  set (student_df := filter (λ r, student_id r = student_id r0) df).
  assert (r0 ∈ student_df) as Hr0' by (by apply list_elem_of_filter).
  assert (student_df ≠ []) as Hne by (intros E; rewrite E in Hr0'; set_solver).
  split.
  - destruct (mean_bits (map is_correct student_df)) as (q & Hq & _ & Hrange).
    { by destruct student_df. }
    { apply Hb. intros r Hr. by apply list_elem_of_filter in Hr as [_ ?]. }
    assert (∃ avg, mean (map time_spent student_df) = Some avg) as [avg Havg].
    { unfold mean. rewrite decide_False by (by destruct student_df). eauto. }
    unfold dashboard. fold student_df. rewrite Hq, Havg. simpl.
    eexists _, _, _, _. split; [done|]. split; [done|].
    split; [destruct student_df; simpl; [done|lia]|done].
  - destruct (mean_bits (map is_correct df)) as (q & Hq & _ & Hrange).
    { destruct df; [|done]. by apply not_elem_of_nil in Hr0. }
    { by apply Hb. }
    unfold analytics. rewrite Hq. simpl. eauto.
Qed.

Lemma page_percentages_in_range_witness :
  (∃ total acc n avg,
     dashboard "S12" df_spec_example
       = DashboardPage total (Some acc) n (Some avg) ∧
     n = length (filter (λ r, student_id r = "S12") df_spec_example) ∧
     (1 ≤ n)%nat ∧ (0 ≤ acc ≤ Qc_of_Z 100)%Qc) ∧
  (∃ acc, analytics df_spec_example = AnalyticsPage (Some acc) ∧
          (0 ≤ acc ≤ Qc_of_Z 100)%Qc).
Proof.
  apply (page_percentages_in_range "S12" df_spec_example).
  - vm_compute. left.
  - intros r Hr. unfold df_spec_example in Hr. each_row Hr; auto.
Defined.

(** X18.  The cards of the recommendations page are numbered 1, 2, ...;
    each is for a topic with at least one attempt of the student (the
    "no attempt" branch is never taken) and shows an accuracy of at
    least 0 and strictly below 100. *)
Theorem recommendation_cards_below_100 sid df rules cards :
  (∀ r, r ∈ df → is_correct r = 0 ∨ is_correct r = 1) →
  recommendation_cards sid df rules = Ok cards →
  cards.*1.*1 = seq 1 (length cards) ∧
  ∀ i t acc, (i, t, acc) ∈ cards →
    has_incorrect_attempt sid t df ∧
    (0 < length (filter (λ r, student_id r = sid ∧ topic r = t) df))%nat ∧
    acc = (Qc_of_Z (sum_Z (map is_correct
                      (filter (λ r, student_id r = sid ∧ topic r = t) df)))
           / Qc_of_Z (Z.of_nat (length
                      (filter (λ r, student_id r = sid ∧ topic r = t) df)))
           * Qc_of_Z 100)%Qc ∧
    (0 ≤ acc)%Qc ∧ (acc < Qc_of_Z 100)%Qc.
Proof.
  intros Hbits Hrun. unfold recommendation_cards, rmap in Hrun.
  destruct (get_recommendations sid df rules) as [recs| |] eqn:Hrec;
    simpl in Hrun; simplify_eq.
  split.
  - rewrite length_imap, <- list_fmap_compose, fmap_imap.
    rewrite (imap_ext _ (λ i _, S i)) by done.
    by rewrite imap_seq_0, fmap_S_seq.
  - intros i t acc Hin. apply elem_of_lookup_imap in Hin as (k & t' & Heq & Hk).
    injection Heq as -> -> ->.
    assert (has_incorrect_attempt sid t' df) as Hweak.
    { apply (get_recommendations_exact _ _ _ _ Hrec).
      by eapply list_elem_of_lookup_2. }
    split; [done|]. destruct Hweak as (r & Hr & Hs & Ht & H0).
    set (rows := filter (λ r, student_id r = sid ∧ topic r = t') df).
    assert (r ∈ rows) as Hr' by (by apply list_elem_of_filter).
    assert (rows ≠ []) as Hne by (intros E; rewrite E in Hr'; set_solver).
    assert (0 < length rows)%nat as Hlen by (destruct rows; simpl; [done|lia]).
    assert (Forall (λ x, x = 0 ∨ x = 1) (map is_correct rows)) as Hb.
    { apply Forall_fmap, Forall_forall. intros x Hx. apply Hbits.
      by apply list_elem_of_filter in Hx as [_ ?]. }
    split; [done|]. unfold topic_accuracy. fold rows.
    rewrite decide_True by done. unfold mean.
    rewrite decide_False by (by destruct rows). simpl.
    rewrite length_map. split; [done|]. split.
    + apply percent_bounds; [lia|].
      rewrite <- (length_map is_correct). by apply sum_Z_bits.
    + apply percent_lt; [lia|].
      rewrite <- (length_map is_correct). apply sum_Z_bits_lt; [done|].
      apply list_elem_of_fmap. by exists r.
Qed.

Lemma recommendation_cards_below_100_witness :
  ∃ cards,
    cards.*1.*1 = seq 1 (length cards) ∧
    ∀ i t acc, (i, t, acc) ∈ cards →
      has_incorrect_attempt "S12" t df_spec_example ∧
      (0 < length (filter (λ r, student_id r = "S12" ∧ topic r = t)
                          df_spec_example))%nat ∧
      acc = (Qc_of_Z (sum_Z (map is_correct
               (filter (λ r, student_id r = "S12" ∧ topic r = t)
                       df_spec_example)))
             / Qc_of_Z (Z.of_nat (length
               (filter (λ r, student_id r = "S12" ∧ topic r = t)
                       df_spec_example)))
             * Qc_of_Z 100)%Qc ∧
      (0 ≤ acc)%Qc ∧ (acc < Qc_of_Z 100)%Qc.
Proof.
  eexists.
  eapply (recommendation_cards_below_100 "S12" df_spec_example rules_algebra).
  - intros r Hr. unfold df_spec_example in Hr. each_row Hr; auto.
  - vm_compute. reflexivity.
Defined.

Example recent_attempts_example :
  (recent_attempts "S12" df_spec_example).*1 = [3; 2; 1; 0]%nat.
Proof. reflexivity. Qed.

(** X19.  The table of recent attempts has [min(10, attempts)] rows of
    the student, newest first (labels strictly decreasing); an attempt
    of the student that is not shown is older than all ten shown. *)
Theorem recent_attempts_newest_first sid df :
  length (recent_attempts sid df)
    = min 10 (length (filter (λ r, student_id r = sid) df)) ∧
  StronglySorted (flip lt) (recent_attempts sid df).*1 ∧
  (∀ i v, (i, v) ∈ recent_attempts sid df →
          ∃ r, df !! i = Some r ∧ student_id r = sid ∧ v = view r) ∧
  (∀ i r, df !! i = Some r → student_id r = sid →
          (i, view r) ∈ recent_attempts sid df ∨
          (length (recent_attempts sid df) = 10%nat ∧
           ∀ p, p ∈ recent_attempts sid df → (i < p.1)%nat)).
Proof.
  rewrite recent_attempts_reverse.
  set (frame := prod_map id view <$>
                  filter (λ p, student_id p.2 = sid) (iterrows df)).
  assert (length frame = length (filter (λ r, student_id r = sid) df)) as Hlen
    by (unfold frame; by rewrite length_fmap, length_student_frame).
  assert (StronglySorted lt frame.*1) as Hsorted
    by apply student_frame_labels.
  assert (∀ i v, (i, v) ∈ frame ↔
            ∃ r, df !! i = Some r ∧ student_id r = sid ∧ v = view r) as Hmem.
  { intros i v. unfold frame. rewrite list_elem_of_fmap. split.
    - intros ([j r] & [= -> ->] & Hp). apply list_elem_of_filter in Hp as [? Hp].
      apply elem_of_iterrows in Hp. eauto.
    - intros (r & Hr & Hs & ->). exists (i, r). split; [done|].
      apply list_elem_of_filter. split; [done|]. by apply elem_of_iterrows. }
  unfold tail_rows. split; [|split; [|split]].
  - rewrite length_reverse, length_drop. lia.
  - rewrite fmap_reverse. apply StronglySorted_reverse.
    rewrite fmap_drop.
    apply (StronglySorted_sublist _ _ _ (sublist_drop _ _) Hsorted).
  - intros i v Hin. rewrite elem_of_reverse in Hin. apply Hmem.
    eapply elem_of_sublist; [done|apply sublist_drop].
  - intros i r Hr Hs.
    assert ((i, view r) ∈ frame) as Hin by (apply Hmem; eauto).
    rewrite <- (take_drop (length frame - 10) frame) in Hin, Hsorted.
    apply elem_of_app in Hin as [Hin|Hin].
    + right. split.
      { rewrite length_reverse, length_drop.
        apply list_elem_of_lookup in Hin as [k Hk].
        apply lookup_lt_Some in Hk. rewrite length_take in Hk. lia. }
      intros p Hp. rewrite elem_of_reverse in Hp.
      rewrite fmap_app in Hsorted.
      apply (StronglySorted_app_1_elem_of _ _ _ i p.1) in Hsorted; [done|..].
      * apply list_elem_of_fmap. by exists (i, view r).
      * apply list_elem_of_fmap. by exists p.
    + left. by rewrite elem_of_reverse.
Qed.

Example topic_insights_example :
  most_difficult df_spec_example = Ok "Algebra" ∧
  best_topic df_spec_example = Ok "Geometry" ∧
  most_difficult df_two_topics = Ok "Algebra" ∧
  best_topic df_two_topics = Ok "Algebra".
Proof. repeat split; vm_compute; reflexivity. Qed.

(** X20.  On an empty log both insights raise [ValueError].  Otherwise
    the "most challenging" topic has the least mean of [is_correct] and
    the "best" topic the greatest, among the topics of the log; among
    topics of equal mean the first in string order is named. *)
Theorem topic_insights df :
  (df = [] → most_difficult df = Raise ValueError ∧
             best_topic df = Raise ValueError) ∧
  (df ≠ [] →
   ∃ hard best,
     most_difficult df = Ok hard ∧ best_topic df = Ok best ∧
     hard ∈ map topic df ∧ best ∈ map topic df ∧
     ∀ t, t ∈ map topic df →
       (topic_mean df hard ≤ topic_mean df t)%Qc ∧
       (topic_mean df t ≤ topic_mean df best)%Qc ∧
       (topic_mean df t = topic_mean df hard → str_le hard t) ∧
       (topic_mean df t = topic_mean df best → str_le best t)).
Proof.
  split; [by intros ->|]. intros Hne.
  destruct (groupby_keys df) as (keys & Hg & Hsorted & Hkeys).
  unfold most_difficult, best_topic. rewrite Hg.
  destruct keys as [|k0 keys].
  { destruct df as [|r df]; [done|].
    assert (topic r ∈ map topic (r :: df)) as Hr by left.
    apply Hkeys in Hr. by apply not_elem_of_nil in Hr. }
  rewrite fmap_cons. simpl.
  destruct (argmin_spec ((λ t, (t, topic_mean df t)) <$> keys)
              (k0, topic_mean df k0)) as (a1 & va & a2 & Ha & Ha1 & Ha2).
  destruct (argmax_spec ((λ t, (t, topic_mean df t)) <$> keys)
              (k0, topic_mean df k0)) as (b1 & vb & b2 & Hb & Hb1 & Hb2).
  rewrite <- (fmap_cons (λ t, (t, topic_mean df t))) in Ha, Hb.
  destruct (grouped_split _ _ _ _ _ _ Ha Hsorted) as (-> & Hina & Hsa).
  destruct (grouped_split _ _ _ _ _ _ Hb Hsorted) as (-> & Hinb & Hsb).
  eexists _, _. split; [done|]. split; [done|].
  split; [by apply Hkeys|]. split; [by apply Hkeys|].
  intros t Ht. apply Hkeys in Ht.
  destruct (Hsa t Ht) as [[Hne1 H1]|[Hle1 H1]];
    destruct (Hsb t Ht) as [[Hne2 H2]|[Hle2 H2]].
  - specialize (Ha1 _ H1). specialize (Hb1 _ H2). simpl in *.
    split; [by apply Qclt_le_weak|]. split; [by apply Qclt_le_weak|].
    split; intros E.
    + rewrite E in Ha1. by apply Qclt_not_eq in Ha1.
    + rewrite E in Hb1. by apply Qclt_not_eq in Hb1.
  - specialize (Ha1 _ H1). simpl in *.
    split; [by apply Qclt_le_weak|]. split.
    { destruct H2 as [->|H2]; [apply Qcle_refl|by apply (Hb2 _ H2)]. }
    split; [|done]. intros E. rewrite E in Ha1. by apply Qclt_not_eq in Ha1.
  - specialize (Hb1 _ H2). simpl in *. split.
    { destruct H1 as [->|H1]; [apply Qcle_refl|by apply (Ha2 _ H1)]. }
    split; [by apply Qclt_le_weak|]. split; [done|].
    intros E. rewrite E in Hb1. by apply Qclt_not_eq in Hb1.
  - split.
    { destruct H1 as [->|H1]; [apply Qcle_refl|by apply (Ha2 _ H1)]. }
    split; [|done].
    destruct H2 as [->|H2]; [apply Qcle_refl|by apply (Hb2 _ H2)].
Qed.
